(** * Order and redemption consistency of the Al-Nassr VIP cards service

    A shallow embedding of [netlify/functions/api.js] (the serverless
    handler) and of the Express variant of the redeem-status route, with the
    consistency properties of the order store, the catalogue and the
    redeem-code store proved over it.

    Conventions.
    - A JavaScript string is a [string] holding its UTF-8 bytes.  Built-ins
      whose result depends on Unicode tables ([toUpperCase], [trim]) are
      computed here on strings made of ASCII bytes only, and delegated to the
      [Runtime] on every other string.
    - A JavaScript number is a rational [Q]; nothing below does arithmetic
      on one.
    - Everything the host supplies (HMAC, JSON serialisation, date
      formatting, engine error messages) is a field of [Runtime]; every
      theorem holds for all runtimes unless it names one.
    - A request handler runs to completion between two [await]s.  A handler
      is therefore split in [start] (up to its only [await], the outbound
      gateway call) and [resume] (from the gateway's answer to the
      response); the steps of different requests interleave freely. *)

From Stdlib Require QArith.
From Stdlib Require Import Ascii.
From stdpp Require Import gmap strings list pretty.

#[local] Set Warnings "-register-all,-clear-no-such-hyp,-abstract-large-number".

Abbreviation Q := QArith_base.Q.

(** ** JavaScript values and strings *)

Module JS.

(** JSON values, plus [undefined].  An object lists its own enumerable
    properties in enumeration order. *)
Inductive jsval :=
| JUndef
| JNull
| JBool (b : bool)
| JNum (q : Q)
| JStr (s : string)
| JArr (items : list jsval)
| JObj (props : list (string * jsval)).

Definition num (z : Z) : jsval := JNum (QArith_base.inject_Z z).

(** [ToBoolean]. *)
Definition truthy (v : jsval) : bool :=
  match v with
  | JUndef | JNull => false
  | JBool b => b
  | JNum q => negb (Z.eqb (QArith_base.Qnum q) 0)
  | JStr s => negb (bool_decide (s = ""))
  | JArr _ | JObj _ => true
  end.

(** [a || b]. *)
Definition or_else (a b : jsval) : jsval := if truthy a then a else b.

Fixpoint assoc {A} (k : string) (l : list (string * A)) : option A :=
  match l with
  | [] => None
  | (k', v) :: l => if bool_decide (k' = k) then Some v else assoc k l
  end.

(** [v.name] for the property names this program reads; none of them
    lives on a built-in prototype, so a missing own property reads as
    [undefined].  Reading a property of [null] or [undefined] throws, which
    the callers below test for before they read. *)
Definition get (v : jsval) (name : string) : jsval :=
  match v with
  | JObj props => default JUndef (assoc name props)
  | _ => JUndef
  end.

(** [x === n] for a number [n] held by the program. *)
Definition strict_eq_num (n : Z) (v : jsval) : bool :=
  match v with
  | JNum q => QArith_base.Qeq_bool q (QArith_base.inject_Z n)
  | _ => false
  end.

(** [x === "literal"]. *)
Definition strict_eq_str (v : jsval) (s : string) : bool :=
  match v with
  | JStr s' => bool_decide (s' = s)
  | _ => false
  end.

(** [ToString(v)] throws a [TypeError].  An object made by [JSON.parse]
    has [Object.prototype] as prototype, so its conversion calls [toString]
    and then [valueOf]: an own [toString] property, which is never callable,
    hides the inherited method, and [valueOf], own or inherited, yields no
    primitive.  An array is joined, which converts every element other than
    [null] and [undefined].  Every other value converts. *)
Fixpoint ToString_throws (v : jsval) : bool :=
  match v with
  | JObj props => bool_decide (is_Some (assoc "toString" props))
  | JArr items => existsb ToString_throws items
  | _ => false
  end.

End JS.
Export JS.

Module Str.

Fixpoint startsWith (s pre : string) {struct pre} : bool :=
  match pre, s with
  | EmptyString, _ => true
  | String a pre, String b s => bool_decide (a = b) && startsWith s pre
  | String _ _, EmptyString => false
  end.

Fixpoint drop (n : nat) (s : string) : string :=
  match n, s with
  | O, _ => s
  | S n, String _ s => drop n s
  | S _, EmptyString => EmptyString
  end.

(** [s.replace(pat, rep)] for a string pattern: the first occurrence. *)
Fixpoint replace (pat rep s : string) : string :=
  if startsWith s pat then rep +:+ drop (String.length pat) s
  else match s with
       | EmptyString => EmptyString
       | String c s => String c (replace pat rep s)
       end.

(** [s.replace(/^\/api\//, "/")]. *)
Definition replace_api_prefix (s : string) : string :=
  if startsWith s "/api/" then "/" +:+ drop 5 s else s.

(** [s.replace(/^\/+/, "")]. *)
Fixpoint strip_slashes (s : string) : string :=
  match s with
  | String "/"%char s => strip_slashes s
  | _ => s
  end.

Fixpoint split_go (sep : ascii) (cur : string) (s : string) : list string :=
  match s with
  | EmptyString => [String.rev cur]
  | String c s =>
      if bool_decide (c = sep) then String.rev cur :: split_go sep EmptyString s
      else split_go sep (String c cur) s
  end.

(** [s.split("/")]. *)
Definition split (sep : ascii) (s : string) : list string :=
  split_go sep EmptyString s.

Definition is_ascii_char (c : ascii) : bool := (Ascii.N_of_ascii c <? 128)%N.

Fixpoint is_ascii (s : string) : bool :=
  match s with
  | EmptyString => true
  | String c s => is_ascii_char c && is_ascii s
  end.

Definition upper_char (c : ascii) : ascii :=
  let n := Ascii.N_of_ascii c in
  if ((97 <=? n) && (n <=? 122))%N then Ascii.ascii_of_N (n - 32) else c.

Fixpoint ascii_upper (s : string) : string :=
  match s with
  | EmptyString => EmptyString
  | String c s => String (upper_char c) (ascii_upper s)
  end.

(** White space and line terminators of ECMAScript below U+0080:
    TAB, LF, VT, FF, CR and SPACE. *)
Definition is_space (c : ascii) : bool := Ascii.is_space c.

Fixpoint trim_start (s : string) : string :=
  match s with
  | String c s' => if is_space c then trim_start s' else s
  | EmptyString => EmptyString
  end.

Fixpoint trim_end (s : string) : string :=
  match s with
  | String c s' =>
      match trim_end s' with
      | EmptyString => if is_space c then EmptyString else String c EmptyString
      | t => String c t
      end
  | EmptyString => EmptyString
  end.

Definition ascii_trim (s : string) : string := trim_end (trim_start s).


Definition hex_digit (n : N) : ascii :=
  Ascii.ascii_of_N (if (n <? 10)%N then 48 + n else 87 + n).

(** [buf.toString("hex")]: two lower-case digits per byte. *)
Fixpoint hex (bs : list Byte.byte) : string :=
  match bs with
  | [] => EmptyString
  | b :: bs =>
      let n := Byte.to_N b in
      String (hex_digit (n / 16)) (String (hex_digit (n mod 16)) (hex bs))
  end.

End Str.

(** ** The host: built-ins of the JavaScript engine and of Node *)

Record Runtime := {
  (** [String.prototype.toUpperCase] and [trim] on a string that has
      code points at or above U+0080. *)
  toUpperCase_unicode : string → string;
  trim_unicode : string → string;
  (** The UTF-16 code units of such a string, one string per unit. *)
  code_units_unicode : string → list string;
  (** [Array.prototype.sort] with the default comparison, on strings of
      which one has such code points. *)
  sort_unicode : list string → list string;
  JSON_stringify : jsval → string;
  (** [ToString] of a value that is not a string. *)
  ToString_other : jsval → string;
  (** [crypto.createHmac("sha512", key).update(msg).digest("hex")]. *)
  hmac_sha512_hex : string → string → string;
  (** [new Date(ms).toISOString()]. *)
  toISOString : Z → string;
  (** [new Date(x).toLocaleDateString("ar-SA")] for [x] a stored
      [redeemedAt]: [null] or an ISO string. *)
  toLocaleDateString : option string → string;
  (** [Number.prototype.toLocaleString] in the host's locale. *)
  toLocaleString : Z → string;
  (** The messages of the errors the engine itself throws. *)
  type_error_message : string → string;
  syntax_error_message : string
}.

Section Builtins.
Context (rt : Runtime).

Definition toUpperCase (s : string) : string :=
  if Str.is_ascii s then Str.ascii_upper s else toUpperCase_unicode rt s.

Definition trim (s : string) : string :=
  if Str.is_ascii s then Str.ascii_trim s else trim_unicode rt s.

Fixpoint ascii_units (s : string) : list string :=
  match s with
  | EmptyString => []
  | String c s => String c EmptyString :: ascii_units s
  end.

Definition code_units (s : string) : list string :=
  if Str.is_ascii s then ascii_units s else code_units_unicode rt s.

Definition ToString (v : jsval) : string :=
  match v with
  | JStr s => s
  | _ => ToString_other rt v
  end.

Fixpoint insert_sorted (k : string) (l : list string) : list string :=
  match l with
  | [] => [k]
  | x :: l' => if String.leb k x then k :: l else x :: insert_sorted k l'
  end.

(** [keys.sort()]: by UTF-16 code units, which on ASCII strings is the
    order of the bytes. *)
Definition sort (ks : list string) : list string :=
  if forallb Str.is_ascii ks then foldr insert_sorted [] ks
  else sort_unicode rt ks.

End Builtins.

(** ** Ordinary objects: property assignment and key order *)

Module Obj.

Fixpoint digits (acc : N) (s : string) : option N :=
  match s with
  | EmptyString => Some acc
  | String c s =>
      let n := Ascii.N_of_ascii c in
      if ((48 <=? n) && (n <=? 57))%N then digits (acc * 10 + (n - 48)) s
      else None
  end.

(** An array index is a canonical numeric string below [2^32 - 1]. *)
Definition array_index (k : string) : option N :=
  match k with
  | EmptyString => None
  | _ =>
      n ← digits 0 k;
      if (n <? 4294967295)%N && bool_decide (pretty n = k) then Some n else None
  end.

Fixpoint insert_index (n : N) (k : string) (v : jsval)
    (o : list (string * jsval)) : list (string * jsval) :=
  match o with
  | [] => [(k, v)]
  | (k', v') :: o' =>
      match array_index k' with
      | Some n' => if (n' <? n)%N then (k', v') :: insert_index n k v o'
                   else (k, v) :: o
      | None => (k, v) :: o
      end
  end.

Fixpoint update (k : string) (v : jsval)
    (o : list (string * jsval)) : list (string * jsval) :=
  match o with
  | [] => []
  | (k', v') :: o' =>
      if bool_decide (k' = k) then (k', v) :: o' else (k', v') :: update k v o'
  end.

(** [o[k] = v] on an object whose prototype is [Object.prototype]: an
    own property keeps its place; a new one is enumerated after the
    existing ones, except that array indices come first, in ascending
    order; and ["__proto__"] is the prototype setter, which creates no
    own property. *)
Definition set (o : list (string * jsval)) (k : string) (v : jsval)
    : list (string * jsval) :=
  if bool_decide (k = "__proto__") then o
  else if bool_decide (is_Some (assoc k o)) then update k v o
  else match array_index k with
       | Some n => insert_index n k v o
       | None => o ++ [(k, v)]
       end.

(** The own enumerable string-keyed properties that [Object.keys(v)]
    and [v[key]] see; [None] where [Object.keys] throws. *)
Definition own_props (rt : Runtime) (v : jsval) : option (list (string * jsval)) :=
  match v with
  | JUndef | JNull => None
  | JBool _ | JNum _ => Some []
  | JStr s => Some (imap (λ i u, (pretty i, JStr u)) (code_units rt s))
  | JArr items => Some (imap (λ i x, (pretty i, x)) items)
  | JObj props => Some props
  end.

End Obj.

(** ** Data model: catalogue, orders, redeem codes *)

Module Player.
Record t := {
  id : Z;
  name : string;
  nameEn : string;
  price : Z;
  btc : Q;
  sold : bool
}.

Definition set_sold (b : bool) (p : t) : t :=
  {| id := id p; name := name p; nameEn := nameEn p; price := price p;
     btc := btc p; sold := b |}.

Definition to_js (p : t) : jsval :=
  JObj [("id", num (id p)); ("name", JStr (name p)); ("nameEn", JStr (nameEn p));
        ("price", num (price p)); ("btc", JNum (btc p)); ("sold", JBool (sold p))].
End Player.

Module Order.
(** The two shapes of an order: made by create-payment or by
    create-invoice. *)
Inductive details :=
| Payment (payCurrency payAmount payAddress paymentId : jsval)
| Invoice (invoiceId invoiceUrl : jsval).

Record t := {
  orderId : string;
  playerId : Z;
  playerName : string;
  priceAmount : Z;
  gateway : details;
  status : jsval;
  redeemOption : jsval;
  customer : jsval;
  createdAt : string;
  (** [None] until a webhook assigns the property. *)
  actuallyPaid : option jsval
}.

(** [order.status = s; order.actuallyPaid = a]. *)
Definition set_status_paid (s a : jsval) (o : t) : t :=
  {| orderId := orderId o; playerId := playerId o; playerName := playerName o;
     priceAmount := priceAmount o; gateway := gateway o; status := s;
     redeemOption := redeemOption o; customer := customer o;
     createdAt := createdAt o; actuallyPaid := Some a |}.

Definition to_js (o : t) : jsval :=
  JObj ([("orderId", JStr (orderId o)); ("playerId", num (playerId o));
         ("playerName", JStr (playerName o)); ("priceAmount", num (priceAmount o))]
        ++ match gateway o with
           | Payment c a ad i =>
               [("payCurrency", c); ("payAmount", a); ("payAddress", ad); ("paymentId", i)]
           | Invoice i u => [("invoiceId", i); ("invoiceUrl", u)]
           end
        ++ [("status", status o); ("redeemOption", redeemOption o);
            ("customer", customer o); ("createdAt", JStr (createdAt o))]
        ++ match actuallyPaid o with
           | Some a => [("actuallyPaid", a)]
           | None => []
           end).
End Order.

Module Code.
Record t := {
  playerId : Z;
  playerName : string;
  playerNameEn : string;
  sats : Z;
  redeemed : bool;
  (** [null] or the ISO string written by a redemption. *)
  redeemedAt : option string;
  redeemedTo : jsval;
  (** Absent ([None], [JUndef]) until a redemption. *)
  txId : option string;
  email : jsval
}.

Definition seed (pid : Z) (ar en : string) (amount : Z) : t :=
  {| playerId := pid; playerName := ar; playerNameEn := en; sats := amount;
     redeemed := false; redeemedAt := None; redeemedTo := JNull;
     txId := None; email := JUndef |}.

(** The five assignments of a successful redemption. *)
Definition redeem (at_ : string) (to : jsval) (tx : string) (mail : jsval) (c : t) : t :=
  {| playerId := playerId c; playerName := playerName c;
     playerNameEn := playerNameEn c; sats := sats c;
     redeemed := true; redeemedAt := Some at_; redeemedTo := to;
     txId := Some tx; email := mail |}.
End Code.

Record state := {
  orders : gmap string Order.t;
  redeemCodes : gmap string Code.t;
  players : list Player.t
}.

Definition with_orders (m : gmap string Order.t) (st : state) : state :=
  {| orders := m; redeemCodes := redeemCodes st; players := players st |}.
Definition with_redeemCodes (m : gmap string Code.t) (st : state) : state :=
  {| orders := orders st; redeemCodes := m; players := players st |}.
Definition with_players (l : list Player.t) (st : state) : state :=
  {| orders := orders st; redeemCodes := redeemCodes st; players := l |}.

Definition initial_redeemCodes : gmap string Code.t :=
  list_to_map [
    ("NASSR-R7CR-GOLD-2025", Code.seed 1 "كريستيانو رونالدو" "Cristiano Ronaldo" 5200000)%Z;
    ("NASSR-MANE-STAR-2025", Code.seed 2 "ساديو ماني" "Sadio Mané" 3600000)%Z;
    ("NASSR-LAPO-DFND-2025", Code.seed 3 "ايمريك لابورت" "Aymeric Laporte" 2700000)%Z;
    ("NASSR-BROZ-MIDX-2025", Code.seed 4 "مارسيلو بروزوفيتش" "Marcelo Brozović" 2100000)%Z;
    ("NASSR-TELL-WING-2025", Code.seed 5 "أليكس تيليس" "Alex Telles" 1600000)%Z;
    ("NASSR-FOFA-POWR-2025", Code.seed 6 "سيكو فوفانا" "Seko Fofana" 1100000)%Z
  ].

Definition initial_players : list Player.t :=
  let mk i ar en p b s :=
    {| Player.id := i; Player.name := ar; Player.nameEn := en; Player.price := p;
       Player.btc := b; Player.sold := s |} in
  [ mk 1%Z "كريستيانو رونالدو" "Cristiano Ronaldo" 189999%Z (QArith_base.Qmake 75 100) false;
    mk 2%Z "ساديو ماني" "Sadio Mané" 129999%Z (QArith_base.Qmake 52 100) false;
    mk 3%Z "ايمريك لابورت" "Aymeric Laporte" 99999%Z (QArith_base.Qmake 27 100) true;
    mk 4%Z "مارسيلو بروزوفيتش" "Marcelo Brozović" 74999%Z (QArith_base.Qmake 21 100) false;
    mk 5%Z "أليكس تيليس" "Alex Telles" 59999%Z (QArith_base.Qmake 16 100) true;
    mk 6%Z "سيكو فوفانا" "Seko Fofana" 39999%Z (QArith_base.Qmake 11 100) false ].

Definition initial_state : state :=
  {| orders := ∅; redeemCodes := initial_redeemCodes; players := initial_players |}.

(** ** Configuration, requests, responses, the outside world *)

Record config := {
  NOWPAYMENTS_API_KEY : option string;
  NOWPAYMENTS_IPN_SECRET : option string;
  IS_PRODUCTION : bool
}.

(** Truthiness of an environment variable: set and not empty. *)
Definition configured (v : option string) : option string :=
  match v with
  | Some s => if bool_decide (s = "") then None else Some s
  | None => None
  end.

Definition NOWPAYMENTS_BASE (cfg : config) : string :=
  if IS_PRODUCTION cfg then "https://api.nowpayments.io/v1"
  else "https://api-sandbox.nowpayments.io/v1".

Module Event.
(** A Netlify function event.  [body] is [JSON.parse(event.body)], with
    [None] where the parse throws. *)
Record t := {
  httpMethod : string;
  path : option string;
  rawUrl : option string;
  headers : gmap string string;
  queryStringParameters : option (gmap string string);
  body : option jsval
}.
End Event.

Module Response.
Record t := {
  statusCode : Z;
  headers : list (string * string);
  body : string
}.
End Response.

Module Fetch.
(** The outbound call of [nowpaymentsRequest] and what comes back. *)
Record request := {
  url : string;
  method : string;
  api_key : string;
  body : option string
}.

Inductive outcome :=
| Failed (message : string)          (* [fetch] rejects *)
| InvalidJson (status : Z)           (* [response.json()] rejects *)
| Json (status : Z) (data : jsval).

(** [response.ok]. *)
Definition ok (status : Z) : bool := ((200 <=? status) && (status <=? 299))%Z.
End Fetch.

(** What one atomic run of a handler reads from the clock and from the
    random source. *)
Record env := {
  Date_now : Z;                          (* [Date.now()] *)
  new_Date : Z;                          (* [new Date()], in milliseconds *)
  randomBytes : nat → list Byte.byte     (* [crypto.randomBytes(n)] *)
}.

(** A computation that returns or throws an error with a message. *)
Inductive res (A : Type) :=
| Ok (a : A)
| Throw (message : string).
Arguments Ok {A} a.
Arguments Throw {A} message.

#[global] Instance res_bind : MBind res := λ A B f r,
  match r with
  | Ok a => f a
  | Throw m => Throw m
  end.

(** The rest of a request that waits for the gateway: the variables its
    continuation still reads. *)
Inductive pending :=
| KStatus
| KForward
| KPaymentStatus
| KPayment (orderId : string) (player : Player.t) (currency redeemOption customer : jsval)
| KInvoice (orderId : string) (player : Player.t) (redeemOption customer : jsval).

Inductive outcome :=
| Done (r : Response.t) (st : state)
| Await (req : Fetch.request) (k : pending).

Definition nullish (v : jsval) : bool :=
  match v with
  | JUndef | JNull => true
  | _ => false
  end.

(** [players.find((p) => p.id === order.playerId)] followed by
    [player.sold = true] on the object found: the first match is changed in
    place. *)
Fixpoint mark_sold (pid : Z) (ps : list Player.t) : list Player.t :=
  match ps with
  | [] => []
  | p :: ps =>
      if bool_decide (Player.id p = pid) then Player.set_sold true p :: ps
      else p :: mark_sold pid ps
  end.

(** ** The serverless handler, [exports.handler] *)

Section Handler.
Context (cfg : config) (rt : Runtime).

(** [respond(statusCode, body)]. *)
Definition respond (statusCode : Z) (body : jsval) : Response.t :=
  {| Response.statusCode := statusCode;
     Response.headers :=
       [("Content-Type", "application/json");
        ("Access-Control-Allow-Origin", "*");
        ("Access-Control-Allow-Headers", "Content-Type, x-nowpayments-sig");
        ("Access-Control-Allow-Methods", "GET, POST, OPTIONS")];
     Response.body := JSON_stringify rt body |}.

Definition missing_key_message : string :=
  "NOWPAYMENTS_API_KEY is not configured on the server. Set it in Netlify dashboard → Site settings → Environment variables.".

(** [nowpaymentsRequest] up to [await fetch(url, options)]. *)
Definition nowpaymentsRequest_call (endpoint method : string) (body : option jsval)
    : res Fetch.request :=
  match configured (NOWPAYMENTS_API_KEY cfg) with
  | None => Throw missing_key_message
  | Some key =>
      Ok {| Fetch.url := NOWPAYMENTS_BASE cfg +:+ endpoint;
            Fetch.method := method;
            Fetch.api_key := key;
            Fetch.body := b ← body; if truthy b then Some (JSON_stringify rt b) else None |}
  end.

(** The conversions of a template literal, or of [new Error(message)]:
    [ToString] of each value in turn.  Only whether one throws matters to
    the callers below. *)
Definition to_strings (vs : list jsval) : res unit :=
  if existsb ToString_throws vs then Throw (type_error_message rt "ToPrimitive")
  else Ok tt.

(** [nowpaymentsRequest] from the outcome of the fetch on.  [new
    Error(message)] converts its message to a string. *)
Definition nowpaymentsRequest_return (fo : Fetch.outcome) : res jsval :=
  match fo with
  | Fetch.Failed m => Throw ("Network error calling NOWPayments: " +:+ m)
  | Fetch.InvalidJson status =>
      Throw ("NOWPayments returned invalid JSON (status " +:+ pretty status +:+ ")")
  | Fetch.Json status data =>
      if Fetch.ok status then Ok data
      else if nullish data then Throw (type_error_message rt "data.message")
      else
        let message := or_else (get data "message")
                         (JStr ("NOWPayments API error: " +:+ pretty status)) in
        _ ← to_strings [message];
        Throw (ToString rt message)
  end.

(** The [catch] of the handler's outer [try]. *)
Definition internal_error (message : string) : Response.t :=
  respond 500 (JObj [("error",
    JStr (if bool_decide (message = "") then "Internal server error" else message))]).

Definition parse_body (ev : Event.t) : res jsval :=
  match Event.body ev with
  | Some v => Ok v
  | None => Throw (syntax_error_message rt)
  end.

(** [const { ... } = v] throws on [null] and [undefined]. *)
Definition destructure (v : jsval) : res jsval :=
  if nullish v then Throw (type_error_message rt "destructure") else Ok v.

Definition first_truthy (a b : option string) : string :=
  match configured a, configured b with
  | Some s, _ => s
  | None, Some s => s
  | None, None => ""
  end.

(** [event.path || event.rawUrl || ""] with both prefixes stripped. *)
Definition resolve_path (ev : Event.t) : string :=
  let rawPath := first_truthy (Event.path ev) (Event.rawUrl ev) in
  Str.strip_slashes
    (Str.replace_api_prefix (Str.replace "/.netlify/functions/api" "" rawPath)).

Definition header_or (ev : Event.t) (name fallback : string) : string :=
  default fallback (configured (Event.headers ev !! name)).

Definition origin (ev : Event.t) : string :=
  header_or ev "x-forwarded-proto" "https" +:+ "://" +:+ header_or ev "host" "localhost".

Definition find_player (playerId : jsval) (ps : list Player.t) : option Player.t :=
  List.find (λ p, strict_eq_num (Player.id p) playerId) ps.

(** [`NASSR-${Date.now()}-${player.id}`]. *)
Definition make_orderId (now : Z) (p : Player.t) : string :=
  "NASSR-" +:+ pretty now +:+ "-" +:+ pretty (Player.id p).

Definition order_description (p : Player.t) : string :=
  "Al-Nassr VIP Card: " +:+ Player.nameEn p +:+ " (PSA 10)".

(** POST create-payment, up to the gateway call. *)
Definition create_payment (e : env) (st : state) (ev : Event.t) : res outcome :=
  body ← parse_body ev;
  body ← destructure body;
  let playerId := get body "playerId" in
  let currency := get body "currency" in
  let redeemOption := get body "redeemOption" in
  let customer := get body "customer" in
  match find_player playerId (players st) with
  | None => Ok (Done (respond 404 (JObj [("error", JStr "Card not found")])) st)
  | Some player =>
      if Player.sold player then
        Ok (Done (respond 400 (JObj [("error", JStr "Card already sold")])) st)
      else if negb (truthy currency) then
        Ok (Done (respond 400 (JObj [("error", JStr "Currency is required")])) st)
      else if negb (truthy customer) || negb (truthy (get customer "email")) then
        Ok (Done (respond 400 (JObj [("error", JStr "Customer email is required")])) st)
      else
        let orderId := make_orderId (Date_now e) player in
        req ← nowpaymentsRequest_call "/payment" "POST" (Some (JObj [
          ("price_amount", num (Player.price player));
          ("price_currency", JStr "sar");
          ("pay_currency", currency);
          ("order_id", JStr orderId);
          ("order_description", JStr (order_description player));
          ("ipn_callback_url", JStr (origin ev +:+ "/api/ipn"))]));
        Ok (Await req (KPayment orderId player currency redeemOption customer))
  end.

(** POST create-invoice, up to the gateway call. *)
Definition create_invoice (e : env) (st : state) (ev : Event.t) : res outcome :=
  body ← parse_body ev;
  body ← destructure body;
  let playerId := get body "playerId" in
  let redeemOption := get body "redeemOption" in
  let customer := get body "customer" in
  match find_player playerId (players st) with
  | None => Ok (Done (respond 404 (JObj [("error", JStr "Card not found")])) st)
  | Some player =>
      if Player.sold player then
        Ok (Done (respond 400 (JObj [("error", JStr "Card already sold")])) st)
      else
        let orderId := make_orderId (Date_now e) player in
        req ← nowpaymentsRequest_call "/invoice" "POST" (Some (JObj [
          ("price_amount", num (Player.price player));
          ("price_currency", JStr "sar");
          ("order_id", JStr orderId);
          ("order_description", JStr (order_description player));
          ("ipn_callback_url", JStr (origin ev +:+ "/api/ipn"));
          ("success_url", JStr (origin ev +:+ "/?payment=success&order=" +:+ orderId));
          ("cancel_url", JStr (origin ev +:+ "/?payment=cancelled"))]));
        Ok (Await req (KInvoice orderId player redeemOption customer))
  end.

(** [Object.keys(payload).sort().reduce((obj, key) => { obj[key] =
    payload[key]; return obj; }, {})], on the own properties of the
    payload. *)
Definition sortedPayload (props : list (string * jsval)) : list (string * jsval) :=
  foldl (λ obj key, Obj.set obj key (default JUndef (assoc key props)))
        [] (sort rt (props.*1)).

(** The digest the webhook must carry under [secret]. *)
Definition ipn_signature (secret : string) (props : list (string * jsval)) : string :=
  hmac_sha512_hex rt secret (JSON_stringify rt (JObj (sortedPayload props))).

(** The signature block of the webhook: [Ok true] to go on, [Ok false]
    to answer 400. *)
Definition ipn_verify (ev : Event.t) (payload : jsval) : res bool :=
  match configured (NOWPAYMENTS_IPN_SECRET cfg) with
  | None => Ok true
  | Some secret =>
      match Obj.own_props rt payload with
      | None => Throw (type_error_message rt "Object.keys")
      | Some props =>
          Ok (bool_decide (Event.headers ev !! "x-nowpayments-sig"
                           = Some (ipn_signature secret props)))
      end
  end.

Definition terminal_success (payment_status : jsval) : bool :=
  strict_eq_str payment_status "confirmed" || strict_eq_str payment_status "finished".

(** The order update of the webhook, from [orders.has(order_id)] on.  The
    keys of [orders] are strings, so no other value is found. *)
Definition ipn_update (order_id payment_status actually_paid : jsval) (st : state) : state :=
  match order_id with
  | JStr oid =>
      match orders st !! oid with
      | Some order =>
          let st' := with_orders
            (<[oid := Order.set_status_paid payment_status actually_paid order]> (orders st)) st in
          if terminal_success payment_status
          then with_players (mark_sold (Order.playerId order) (players st')) st'
          else st'
      | None => st
      end
  | _ => st
  end.

(** POST ipn.  The log line comes before the order update, so a payload
    whose logged properties cannot be converted to strings is answered by the
    [catch] and updates nothing. *)
Definition ipn (st : state) (ev : Event.t) : res outcome :=
  payload ← parse_body ev;
  accepted ← ipn_verify ev payload;
  if negb accepted then
    Ok (Done (respond 400 (JObj [("error", JStr "Invalid signature")])) st)
  else
    payload ← destructure payload;
    (* console.log(`[IPN] Order: ${order_id} | Status: ${payment_status} |
       Paid: ${actually_paid}/${pay_amount}`) *)
    _ ← to_strings [get payload "order_id"; get payload "payment_status";
                    get payload "actually_paid"; get payload "pay_amount"];
    Ok (Done (respond 200 (JObj [("success", JBool true)]))
             (ipn_update (get payload "order_id") (get payload "payment_status")
                         (get payload "actually_paid") st)).

(** [code.toUpperCase().trim()]. *)
Definition normalize (code : string) : string := trim rt (toUpperCase rt code).

(** [`LN-${Date.now()}-${crypto.randomBytes(4).toString("hex").toUpperCase()}`]. *)
Definition make_txId (e : env) : string :=
  "LN-" +:+ pretty (Date_now e) +:+ "-" +:+ toUpperCase rt (Str.hex (randomBytes e 4)).

Definition already_redeemed_message (c : Code.t) : string :=
  "تم استرداد هذا الرمز بتاريخ " +:+ toLocaleDateString rt (Code.redeemedAt c)
    +:+ ". كل رمز صالح للاستخدام مرة واحدة فقط.".

Definition redeemed_message (c : Code.t) : string :=
  "تم إرسال " +:+ toLocaleString rt (Code.sats c) +:+ " ساتوشي إلى محفظتك بنجاح!".

(** POST redeem.  The log line comes after the five assignments: when it
    throws, the handler's [catch] answers and the record stays redeemed. *)
Definition redeem (e : env) (st : state) (ev : Event.t) : res outcome :=
  body ← parse_body ev;
  body ← destructure body;
  let code := get body "code" in
  let lightningAddress := get body "lightningAddress" in
  let email := get body "email" in
  if negb (truthy code) || negb (truthy lightningAddress) then
    Ok (Done (respond 400 (JObj [
      ("error", JStr "رمز الاسترداد وعنوان محفظة Lightning مطلوبان");
      ("message", JStr "يرجى إدخال رمز الاسترداد وعنوان المحفظة")])) st)
  else
    match code with
    | JStr code =>
        let normalizedCode := normalize code in
        match redeemCodes st !! normalizedCode with
        | None =>
            Ok (Done (respond 404 (JObj [
              ("error", JStr "رمز الاسترداد غير صالح");
              ("message", JStr "الرمز المدخل غير موجود في قاعدة البيانات. تأكد من كتابة الرمز بشكل صحيح.")])) st)
        | Some codeData =>
            if Code.redeemed codeData then
              Ok (Done (respond 400 (JObj [
                ("error", JStr "تم استخدام هذا الرمز مسبقاً");
                ("message", JStr (already_redeemed_message codeData))])) st)
            else
              let txId := make_txId e in
              let redeemedAt := toISOString rt (new_Date e) in
              let codeData' :=
                Code.redeem redeemedAt lightningAddress txId (or_else email JNull) codeData in
              let st' :=
                with_redeemCodes (<[normalizedCode := codeData']> (redeemCodes st)) st in
              (* console.log(`[REDEEM] ✓ ${normalizedCode} |
                 ${codeData.sats.toLocaleString()} sats → ${lightningAddress}`) *)
              match to_strings [JStr normalizedCode;
                                JStr (toLocaleString rt (Code.sats codeData'));
                                lightningAddress] with
              | Throw message => Ok (Done (internal_error message) st')
              | Ok _ =>
                  Ok (Done (respond 200 (JObj [
                        ("success", JBool true);
                        ("message", JStr (redeemed_message codeData'));
                        ("playerName", JStr (Code.playerName codeData'));
                        ("sats", num (Code.sats codeData'));
                        ("lightningAddress", lightningAddress);
                        ("txId", JStr txId);
                        ("redeemedAt", JStr redeemedAt)])) st')
              end
        end
    | _ => Throw (type_error_message rt "code.toUpperCase")
    end.

(** GET redeem/:code. *)
Definition get_redeem (st : state) (path : string) : Response.t :=
  let code := trim rt (toUpperCase rt (Str.replace "redeem/" "" path)) in
  match redeemCodes st !! code with
  | None => respond 404 (JObj [("error", JStr "Code not found")])
  | Some codeData =>
      respond 200 (JObj [
        ("playerName", JStr (Code.playerName codeData));
        ("sats", num (Code.sats codeData));
        ("redeemed", JBool (Code.redeemed codeData))])
  end.

(** GET order/:orderId. *)
Definition get_order (st : state) (path : string) : Response.t :=
  match orders st !! Str.replace "order/" "" path with
  | None => respond 404 (JObj [("error", JStr "Order not found")])
  | Some order => respond 200 (Order.to_js order)
  end.

(** A route that only relays one gateway GET. *)
Definition relay (endpoint : string) (k : pending) : res outcome :=
  req ← nowpaymentsRequest_call endpoint "GET" None;
  Ok (Await req k).

(** [${params.name}] for [params = event.queryStringParameters || {}]. *)
Definition query (ev : Event.t) (name : string) : string :=
  default "undefined" (Event.queryStringParameters ev ≫= (λ m, m !! name)).

(** [path.split("/")[1]] in a template literal. *)
Definition segment1 (path : string) : string :=
  default "undefined" (Str.split "/"%char path !! 1%nat).

Definition is_route (ev : Event.t) (method : string) (here : bool) : bool :=
  bool_decide (Event.httpMethod ev = method) && here.

(** The chain of [if (method === ... && path ...)] inside the [try]. *)
Definition route (e : env) (st : state) (ev : Event.t) : res outcome :=
  let path := resolve_path ev in
  if is_route ev "GET" (bool_decide (path = "status")) then
    match nowpaymentsRequest_call "/status" "GET" None with
    | Ok req => Ok (Await req KStatus)
    | Throw m =>
        Ok (Done (respond 200 (JObj [("server", JStr "ok");
                  ("nowpayments", JObj [("message", JStr m)])])) st)
    end
  else if is_route ev "GET" (bool_decide (path = "currencies")) then
    relay "/currencies" KForward
  else if is_route ev "GET" (Str.startsWith path "min-amount/") then
    relay ("/min-amount?currency_from=" +:+ segment1 path +:+ "&currency_to=sar") KForward
  else if is_route ev "GET" (bool_decide (path = "estimate")) then
    relay ("/estimate?amount=" +:+ query ev "amount"
             +:+ "&currency_from=sar&currency_to=" +:+ query ev "currency") KForward
  else if is_route ev "GET" (bool_decide (path = "cards")) then
    Ok (Done (respond 200 (JArr (Player.to_js <$> players st))) st)
  else if is_route ev "POST" (bool_decide (path = "create-payment")) then
    create_payment e st ev
  else if is_route ev "POST" (bool_decide (path = "create-invoice")) then
    create_invoice e st ev
  else if is_route ev "GET" (Str.startsWith path "payment-status/") then
    relay ("/payment/" +:+ segment1 path) KPaymentStatus
  else if is_route ev "POST" (bool_decide (path = "ipn")) then
    ipn st ev
  else if is_route ev "GET" (Str.startsWith path "order/") then
    Ok (Done (get_order st path) st)
  else if is_route ev "POST" (bool_decide (path = "redeem")) then
    redeem e st ev
  else if is_route ev "GET" (Str.startsWith path "redeem/") then
    Ok (Done (get_redeem st path) st)
  else
    Ok (Done (respond 404 (JObj [("error", JStr "Route not found");
              ("path", JStr path); ("method", JStr (Event.httpMethod ev))])) st).

(** The [try] around the routes, with its [catch]. *)
Definition caught (st : state) (r : res outcome) : outcome :=
  match r with
  | Ok o => o
  | Throw m => Done (internal_error m) st
  end.

(** [exports.handler] from its entry to its first [await], or to its
    response when it reaches none. *)
Definition start (e : env) (st : state) (ev : Event.t) : outcome :=
  if bool_decide (Event.httpMethod ev = "OPTIONS") then Done (respond 200 (JObj [])) st
  else caught st (route e st ev).

(** create-payment after [await nowpaymentsRequest(...)].  The log line
    comes after [orders.set]: when it throws, the handler's [catch] answers
    and the order stays stored. *)
Definition finish_payment (e : env) (st : state) (orderId : string) (player : Player.t)
    (currency redeemOption customer paymentData : jsval) : res (Response.t * state) :=
  if nullish paymentData then Throw (type_error_message rt "paymentData.pay_amount")
  else
    let order :=
      {| Order.orderId := orderId;
         Order.playerId := Player.id player;
         Order.playerName := Player.nameEn player;
         Order.priceAmount := Player.price player;
         Order.gateway := Order.Payment currency (get paymentData "pay_amount")
                            (get paymentData "pay_address") (get paymentData "payment_id");
         Order.status := get paymentData "payment_status";
         Order.redeemOption := redeemOption;
         Order.customer := customer;
         Order.createdAt := toISOString rt (new_Date e);
         Order.actuallyPaid := None |} in
    let st' := with_orders (<[orderId := order]> (orders st)) st in
    (* console.log(`[ORDER] Created: ${orderId} | ${player.nameEn} |
       ${paymentData.pay_amount} ${currency}`) *)
    match to_strings [JStr orderId; JStr (Player.nameEn player);
                      get paymentData "pay_amount"; currency] with
    | Throw message => Ok (internal_error message, st')
    | Ok _ =>
        Ok (respond 200 (JObj [
              ("success", JBool true);
              ("orderId", JStr orderId);
              ("paymentId", get paymentData "payment_id");
              ("payAddress", get paymentData "pay_address");
              ("payAmount", get paymentData "pay_amount");
              ("payCurrency", currency);
              ("status", get paymentData "payment_status");
              ("validUntil", get paymentData "expiration_estimate_date")]), st')
    end.

(** create-invoice after [await nowpaymentsRequest(...)]. *)
Definition finish_invoice (e : env) (st : state) (orderId : string) (player : Player.t)
    (redeemOption customer invoiceData : jsval) : res (Response.t * state) :=
  if nullish invoiceData then Throw (type_error_message rt "invoiceData.id")
  else
    let order :=
      {| Order.orderId := orderId;
         Order.playerId := Player.id player;
         Order.playerName := Player.nameEn player;
         Order.priceAmount := Player.price player;
         Order.gateway := Order.Invoice (get invoiceData "id") (get invoiceData "invoice_url");
         Order.status := JStr "waiting";
         Order.redeemOption := redeemOption;
         Order.customer := customer;
         Order.createdAt := toISOString rt (new_Date e);
         Order.actuallyPaid := None |} in
    Ok (respond 200 (JObj [
          ("success", JBool true);
          ("orderId", JStr orderId);
          ("invoiceId", get invoiceData "id");
          ("invoiceUrl", get invoiceData "invoice_url")]),
        with_orders (<[orderId := order]> (orders st)) st).

Definition finish_payment_status (data : jsval) : res Response.t :=
  if nullish data then Throw (type_error_message rt "data.payment_id")
  else Ok (respond 200 (JObj [
         ("paymentId", get data "payment_id");
         ("status", get data "payment_status");
         ("payAmount", get data "pay_amount");
         ("actuallyPaid", get data "actually_paid");
         ("payCurrency", get data "pay_currency")])).

Definition resume_route (k : pending) (fo : Fetch.outcome) (e : env) (st : state)
    : res (Response.t * state) :=
  match k with
  | KStatus =>
      match nowpaymentsRequest_return fo with
      | Ok status =>
          Ok (respond 200 (JObj [("server", JStr "ok"); ("nowpayments", status)]), st)
      | Throw m =>
          Ok (respond 200 (JObj [("server", JStr "ok");
                ("nowpayments", JObj [("message", JStr m)])]), st)
      end
  | KForward =>
      data ← nowpaymentsRequest_return fo;
      Ok (respond 200 data, st)
  | KPaymentStatus =>
      data ← nowpaymentsRequest_return fo;
      r ← finish_payment_status data;
      Ok (r, st)
  | KPayment orderId player currency redeemOption customer =>
      paymentData ← nowpaymentsRequest_return fo;
      finish_payment e st orderId player currency redeemOption customer paymentData
  | KInvoice orderId player redeemOption customer =>
      invoiceData ← nowpaymentsRequest_return fo;
      finish_invoice e st orderId player redeemOption customer invoiceData
  end.

(** [exports.handler] from the gateway's answer to its response. *)
Definition resume (k : pending) (fo : Fetch.outcome) (e : env) (st : state)
    : Response.t * state :=
  match resume_route k fo e st with
  | Ok rs => rs
  | Throw m => (internal_error m, st)
  end.

End Handler.

(** ** The Express server: the redeem-status route *)

Module Express.
(** [res.status(code).json(value)]. *)
Record response := {
  status : Z;
  json : string
}.

(** [app.get("/api/redeem/:code", ...)], on [req.params.code]. *)
Definition get_redeem (rt : Runtime) (st : state) (code : string) : response :=
  let normalizedCode := trim rt (toUpperCase rt code) in
  match redeemCodes st !! normalizedCode with
  | None =>
      {| status := 404; json := JSON_stringify rt (JObj [("error", JStr "Code not found")]) |}
  | Some codeData =>
      {| status := 200;
         json := JSON_stringify rt (JObj [
           ("playerName", JStr (Code.playerName codeData));
           ("sats", num (Code.sats codeData));
           ("redeemed", JBool (Code.redeemed codeData))]) |}
  end.
End Express.

(** ** The server as a transition system *)

Record system := {
  store : state;
  inflight : list pending
}.

Inductive label :=
| Answered (ev : Event.t) (e : env) (r : Response.t)
| Called (ev : Event.t) (e : env) (req : Fetch.request)
| Resumed (k : pending) (fo : Fetch.outcome) (e : env) (r : Response.t).

Section Semantics.
Context (cfg : config) (rt : Runtime).

(** One atomic run: a request handled up to its response or to its
    gateway call, or a waiting request resumed by the gateway's answer. *)
Inductive step : system → label → system → Prop :=
| step_answer st fl ev e r st' :
    start cfg rt e st ev = Done r st' →
    step {| store := st; inflight := fl |} (Answered ev e r)
         {| store := st'; inflight := fl |}
| step_call st fl ev e req k :
    start cfg rt e st ev = Await req k →
    step {| store := st; inflight := fl |} (Called ev e req)
         {| store := st; inflight := fl ++ [k] |}
| step_resume st fl1 k fl2 fo e r st' :
    resume rt k fo e st = (r, st') →
    step {| store := st; inflight := fl1 ++ k :: fl2 |} (Resumed k fo e r)
         {| store := st'; inflight := fl1 ++ fl2 |}.

Inductive run : system → list label → system → Prop :=
| run_nil s : run s [] s
| run_cons s l s' tr s'' : step s l s' → run s' tr s'' → run s (l :: tr) s''.

Definition boot : system := {| store := initial_state; inflight := [] |}.

Definition reachable (s : system) : Prop := ∃ tr, run boot tr s.

End Semantics.

(** ** Vocabulary of the properties *)

(** A creation that waits for the gateway: the order id it will store
    under and the catalogue item it captured. *)
Definition pending_order (k : pending) : option (string * Player.t) :=
  match k with
  | KPayment orderId player _ _ _ => Some (orderId, player)
  | KInvoice orderId player _ _ => Some (orderId, player)
  | _ => None
  end.

(** The catalogue keeps its items, and no sold item is back for sale. *)
Definition sold_monotone (ps ps' : list Player.t) : Prop :=
  Forall2 (λ p p', Player.id p' = Player.id p ∧
                   (Player.sold p = true → Player.sold p' = true)) ps ps'.

(** A request is a redeem call whose code normalises to [k]. *)
Definition redeem_call (rt : Runtime) (k : string) (ev : Event.t) : bool :=
  bool_decide (Event.httpMethod ev = "POST") &&
  bool_decide (resolve_path ev = "redeem") &&
  match Event.body ev with
  | Some b =>
      match get b "code" with
      | JStr s => bool_decide (normalize rt s = k)
      | _ => false
      end
  | None => false
  end.

(** An atomic run is a successful redemption of the code [k]. *)
Definition redeem_success (rt : Runtime) (k : string) (l : label) : bool :=
  match l with
  | Answered ev _ r => redeem_call rt k ev && bool_decide (Response.statusCode r = 200%Z)
  | _ => false
  end.

Definition redeem_successes (rt : Runtime) (k : string) (tr : list label) : nat :=
  length (List.filter (redeem_success rt k) tr).



(** The invariant of the stores: the catalogue ids are the six seeded
    ones, the redeem codes are the six seeded ones, and every order, stored
    or about to be, is filed under its own id, which names its item. *)
Definition order_id_shape (oid : string) (pid : Z) : Prop :=
  ∃ t : Z, oid = "NASSR-" +:+ pretty t +:+ "-" +:+ pretty pid.

Record consistent (s : system) : Prop := {
  catalogue_ids : Player.id <$> players (store s) = Player.id <$> initial_players;
  codes_seeded : dom (redeemCodes (store s)) = dom initial_redeemCodes;
  orders_filed : ∀ oid o, orders (store s) !! oid = Some o →
    Order.orderId o = oid ∧ order_id_shape oid (Order.playerId o) ∧
    Order.playerId o ∈ Player.id <$> initial_players;
  pending_filed : ∀ k oid p, k ∈ inflight s → pending_order k = Some (oid, p) →
    order_id_shape oid (Player.id p) ∧ Player.id p ∈ Player.id <$> initial_players
}.

(** ** A runtime to evaluate the handlers with

    Objects and arrays are printed as JSON (strings without characters to
    escape, integers in decimal, other numbers as fractions), dates as
    their milliseconds, and the keyed digest is a readable stand-in that
    keeps distinct messages distinct.  It serves to run concrete requests;
    no general statement depends on it. *)

Module Reference.

Definition dq : string := String "034"%char EmptyString.

Definition quote (s : string) : string := dq +:+ s +:+ dq.

Fixpoint join (sep : string) (l : list string) : string :=
  match l with
  | [] => ""
  | [x] => x
  | x :: l => x +:+ sep +:+ join sep l
  end.

Definition number (q : Q) : string :=
  if bool_decide (QArith_base.Qden q = 1%positive) then pretty (QArith_base.Qnum q)
  else pretty (QArith_base.Qnum q) +:+ "/" +:+ pretty (Zpos (QArith_base.Qden q)).

Fixpoint stringify (v : jsval) : string :=
  match v with
  | JUndef => "undefined"
  | JNull => "null"
  | JBool b => if b then "true" else "false"
  | JNum q => number q
  | JStr s => quote s
  | JArr items =>
      "[" +:+ join ","
        ((fix elements (l : list jsval) : list string :=
            match l with
            | [] => []
            | JUndef :: l => "null" :: elements l
            | x :: l => stringify x :: elements l
            end) items) +:+ "]"
  | JObj props =>
      "{" +:+ join ","
        ((fix members (l : list (string * jsval)) : list string :=
            match l with
            | [] => []
            | (_, JUndef) :: l => members l
            | (k, x) :: l => (quote k +:+ ":" +:+ stringify x) :: members l
            end) props) +:+ "}"
  end.

Definition runtime : Runtime := {|
  toUpperCase_unicode := λ s, s;
  trim_unicode := λ s, s;
  code_units_unicode := λ _, [];
  sort_unicode := λ ks, ks;
  JSON_stringify := stringify;
  ToString_other := stringify;
  hmac_sha512_hex := λ key msg, "hmac(" +:+ key +:+ "," +:+ msg +:+ ")";
  toISOString := λ ms, pretty ms;
  toLocaleDateString := λ at_, default "" at_;
  toLocaleString := λ n, pretty n;
  type_error_message := λ what, "TypeError: " +:+ what;
  syntax_error_message := "SyntaxError"
|}.

Definition cfg (secret : option string) : config :=
  {| NOWPAYMENTS_API_KEY := Some "key";
     NOWPAYMENTS_IPN_SECRET := secret;
     IS_PRODUCTION := false |}.

Definition clock (ms : Z) : env :=
  {| Date_now := ms; new_Date := ms; randomBytes := λ n, replicate n Byte.xab |}.

(** A request with a parsed JSON body and headers. *)
Definition request (method path : string) (hs : list (string * string)) (b : jsval)
    : Event.t :=
  {| Event.httpMethod := method; Event.path := Some path; Event.rawUrl := None;
     Event.headers := list_to_map hs; Event.queryStringParameters := None;
     Event.body := Some b |}.

End Reference.

(** What one atomic run can do to the stores. *)
Inductive start_effect (e : env) (st : state) : outcome → Prop :=
| effect_none r : start_effect e st (Done r st)
| effect_webhook r order_id payment_status actually_paid :
    start_effect e st (Done r (ipn_update order_id payment_status actually_paid st))
| effect_redeem r k c at_ to tx mail :
    redeemCodes st !! k = Some c → Code.redeemed c = false →
    start_effect e st
      (Done r (with_redeemCodes (<[k := Code.redeem at_ to tx mail c]> (redeemCodes st)) st))
| effect_relay req k :
    pending_order k = None → start_effect e st (Await req k)
| effect_create req k p :
    pending_order k = Some (make_orderId (Date_now e) p, p) →
    p ∈ players st → Player.sold p = false →
    start_effect e st (Await req k).

Inductive resume_effect (k : pending) (st : state) : state → Prop :=
| resumed_none : resume_effect k st st
| resumed_store oid p o :
    pending_order k = Some (oid, p) →
    Order.orderId o = oid → Order.playerId o = Player.id p →
    resume_effect k st (with_orders (<[oid := o]> (orders st)) st).

(** ** A run to evaluate: an invoice for item 1, its confirmation, and a
    late failure notice *)

Module Scenario.

Definition cfg : config := Reference.cfg None.

Definition invoice_request : Event.t :=
  Reference.request "POST" "/api/create-invoice" [("host", "cards.example")]
    (JObj [("playerId", num 1);
           ("customer", JObj [("email", JStr "fan@example.com")])]).

Definition invoice_answer : Fetch.outcome :=
  Fetch.Json 200 (JObj [("id", JStr "4522625843");
                        ("invoice_url", JStr "https://nowpayments.io/payment/?iid=4522625843")]).

Definition orderId : string := "NASSR-1700000000000-1".

Definition webhook (payment_status : string) : Event.t :=
  Reference.request "POST" "/api/ipn" []
    (JObj [("actually_paid", num 1); ("order_id", JStr orderId);
           ("payment_status", JStr payment_status)]).

Definition payment_request (item : Z) : Event.t :=
  Reference.request "POST" "/api/create-payment" [("host", "cards.example")]
    (JObj [("playerId", num item); ("currency", JStr "btc");
           ("customer", JObj [("email", JStr "fan@example.com")])]).

Definition redeem_request (code : string) : Event.t :=
  Reference.request "POST" "/api/redeem" []
    (JObj [("code", JStr code); ("lightningAddress", JStr "x@getalby.com")]).

(** A webhook under a shared secret, with the digest it carries. *)
Definition secret : string := "s3cret".

Definition signed_webhook (props : list (string * jsval)) (digest : string) : Event.t :=
  Reference.request "POST" "/api/ipn" [("x-nowpayments-sig", digest)] (JObj props).




(** The stores after the first code has been redeemed at time [t]. *)
Definition redeemed_once (t : Z) : state :=
  match start cfg Reference.runtime (Reference.clock t) initial_state
          (redeem_request "NASSR-R7CR-GOLD-2025") with
  | Done _ st => st
  | Await _ _ => initial_state
  end.

(** The server once the invoice for item 1 has been created: the request
    made at [1700000000000], the gateway's answer handled half a second
    later. *)
Definition invoiced : system :=
  match start cfg Reference.runtime (Reference.clock 1700000000000) initial_state
          invoice_request with
  | Await _ k =>
      {| store := (resume Reference.runtime k invoice_answer
                     (Reference.clock 1700000000500) initial_state).2;
         inflight := [] |}
  | Done _ _ => boot
  end.

End Scenario.


(** The code [k] has been redeemed. *)
Definition redeemed_at (k : string) (st : state) : Prop :=
  ∃ c, redeemCodes st !! k = Some c ∧ Code.redeemed c = true.

(** The body of the response to a redeem call on a used code. *)
Definition already_redeemed (rt : Runtime) (c : Code.t) : jsval :=
  JObj [("error", JStr "تم استخدام هذا الرمز مسبقاً");
        ("message", JStr ("تم استرداد هذا الرمز بتاريخ "
           +:+ toLocaleDateString rt (Code.redeemedAt c)
           +:+ ". كل رمز صالح للاستخدام مرة واحدة فقط."))].

(** The response has this status, and the JSON text of this value as its
    body. *)
Definition answers (rt : Runtime) (r : Response.t) (status : Z) (body : jsval) : Prop :=
  Response.statusCode r = status ∧ Response.body r = JSON_stringify rt body.

(** The body of the response to a redeem call that lacks its code or its
    address. *)
Definition fields_required : jsval :=
  JObj [("error", JStr "رمز الاسترداد وعنوان محفظة Lightning مطلوبان");
        ("message", JStr "يرجى إدخال رمز الاسترداد وعنوان المحفظة")].



(** The log line of a completed creation throws: create-payment prints the
    gateway's [pay_amount] and the requested currency, create-invoice prints
    nothing. *)
Definition creation_log_throws (k : pending) (data : jsval) : bool :=
  match k with
  | KPayment _ _ currency _ _ => existsb ToString_throws [get data "pay_amount"; currency]
  | _ => false
  end.

(** Tactics that evaluate one atomic run of a concrete execution. *)
Ltac answer ev e :=
  eapply run_cons; [eapply (step_answer _ _ _ _ ev e); vm_compute; reflexivity|].
Ltac call ev e :=
  eapply run_cons; [eapply (step_call _ _ _ _ ev e); vm_compute; reflexivity|].
Ltac resume_with before after fo e :=
  eapply run_cons;
    [eapply (step_resume _ _ _ before _ after fo e); vm_compute; reflexivity|].

(** ** Vocabulary of the further properties *)

(** The headers every response of the serverless handler carries. *)
Definition cors_headers : list (string * string) :=
  [("Content-Type", "application/json");
   ("Access-Control-Allow-Origin", "*");
   ("Access-Control-Allow-Headers", "Content-Type, x-nowpayments-sig");
   ("Access-Control-Allow-Methods", "GET, POST, OPTIONS")].

(** A response made by [respond] with one of the four status codes the
    handler uses. *)
Definition uniform (rt : Runtime) (r : Response.t) : Prop :=
  ∃ n b, r = respond rt n b ∧ n ∈ [200; 400; 404; 500]%Z.

(** ** More requests and configurations to evaluate *)

Module Cases.

(** A deployment without the gateway credential. *)
Definition no_key : config :=
  {| NOWPAYMENTS_API_KEY := None; NOWPAYMENTS_IPN_SECRET := None; IS_PRODUCTION := true |}.

Definition get (path : string) : Event.t :=
  {| Event.httpMethod := "GET"; Event.path := Some path; Event.rawUrl := None;
     Event.headers := ∅; Event.queryStringParameters := None; Event.body := None |}.

Definition at_ (ms : Z) : env := Reference.clock ms.

(** The first catalogue item, and an invoice for it that waits for the
    gateway. *)
Definition item1 : Player.t :=
  {| Player.id := 1; Player.name := "كريستيانو رونالدو"; Player.nameEn := "Cristiano Ronaldo";
     Player.price := 189999; Player.btc := QArith_base.Qmake 75 100; Player.sold := false |}.

Definition item6 : Player.t :=
  {| Player.id := 6; Player.name := "سيكو فوفانا"; Player.nameEn := "Seko Fofana";
     Player.price := 39999; Player.btc := QArith_base.Qmake 11 100; Player.sold := false |}.

Definition waiting_invoice : pending :=
  KInvoice Scenario.orderId item1 JUndef (JObj [("email", JStr "fan@example.com")]).

Definition waiting_payment : pending :=
  KPayment Scenario.orderId item1 (JStr "btc") JUndef
    (JObj [("email", JStr "fan@example.com")]).

(** The gateway's answer to a created payment. *)
Definition payment_answer : Fetch.outcome :=
  Fetch.Json 201 (JObj [("payment_id", JStr "5745459419");
                        ("payment_status", JStr "waiting");
                        ("pay_address", JStr "bc1qexample");
                        ("pay_amount", JStr "0.75")]).

(** The store after the invoice of [Scenario.invoiced] and a payment for
    item 2, created at 1700000000600 and answered by the gateway. *)
Definition two_orders : state :=
  match start Scenario.cfg Reference.runtime (at_ 1700000000600)
          (store Scenario.invoiced) (Scenario.payment_request 2) with
  | Await _ k =>
      (resume Reference.runtime k payment_answer (at_ 1700000000700)
         (store Scenario.invoiced)).2
  | Done _ st => st
  end.

Definition webhook_for (oid status : string) : Event.t :=
  Reference.request "POST" "/api/ipn" []
    (JObj [("order_id", JStr oid); ("payment_status", JStr status)]).

End Cases.

(** Two catalogue entries, or two redeem records, that differ at most in
    what a sale or a redemption writes. *)
Definition same_item (p p' : Player.t) : Prop :=
  Player.id p' = Player.id p ∧ Player.name p' = Player.name p ∧
  Player.nameEn p' = Player.nameEn p ∧ Player.price p' = Player.price p ∧
  Player.btc p' = Player.btc p.

Definition same_code (c c' : Code.t) : Prop :=
  Code.playerId c' = Code.playerId c ∧ Code.playerName c' = Code.playerName c ∧
  Code.playerNameEn c' = Code.playerNameEn c ∧ Code.sats c' = Code.sats c.

(** A redeem record is the seeded one [c0], or the seeded one with a whole
    redemption written to it. *)
Definition code_settled (c0 c : Code.t) : Prop :=
  if Code.redeemed c then
    ∃ at_ to tx mail, c = Code.redeem at_ to tx mail c0 ∧
      Str.startsWith tx "LN-" = true ∧ truthy to = true ∧
      (mail = JNull ∨ truthy mail = true)
  else c = c0.

Definition codes_settled (st : state) : Prop :=
  ∀ k c, redeemCodes st !! k = Some c →
         ∃ c0, initial_redeemCodes !! k = Some c0 ∧ code_settled c0 c.

(** Two orders that differ at most in what a webhook writes. *)
Definition same_order (o o' : Order.t) : Prop :=
  Order.orderId o' = Order.orderId o ∧ Order.playerId o' = Order.playerId o ∧
  Order.playerName o' = Order.playerName o ∧
  Order.priceAmount o' = Order.priceAmount o ∧ Order.gateway o' = Order.gateway o ∧
  Order.redeemOption o' = Order.redeemOption o ∧
  Order.customer o' = Order.customer o ∧ Order.createdAt o' = Order.createdAt o.

(** The step completes a creation that files its order under [oid]. *)
Definition refiles (oid : string) (l : label) : Prop :=
  match l with
  | Resumed k _ _ _ => ∃ p, pending_order k = Some (oid, p)
  | _ => False
  end.

(** The same request with another parsed body. *)
Definition with_body (b : jsval) (ev : Event.t) : Event.t :=
  {| Event.httpMethod := Event.httpMethod ev; Event.path := Event.path ev;
     Event.rawUrl := Event.rawUrl ev; Event.headers := Event.headers ev;
     Event.queryStringParameters := Event.queryStringParameters ev;
     Event.body := Some b |}.

(** No character of the string is the dash that separates the parts of an
    order id. *)
Fixpoint no_dash (s : string) : bool :=
  match s with
  | EmptyString => true
  | String c s => negb (bool_decide (c = "-"%char)) && no_dash s
  end.

(** ** The Express server: redeem, webhook and the reads of the stores

    The routes of the Express deployment that work on the stores alone.
    Each is given what Express hands to the handler: the parsed [req.body],
    [req.headers], [req.params]. *)

Module Server.

(** [res.status(code).json(value)]; [res.json(value)] answers 200. *)
Definition status_json (rt : Runtime) (code : Z) (value : jsval) : Express.response :=
  {| Express.status := code; Express.json := JSON_stringify rt value |}.

Definition json (rt : Runtime) (value : jsval) : Express.response :=
  status_json rt 200 value.

(** The [catch] of [app.post("/api/redeem", ...)]. *)
Definition redeem_failed (rt : Runtime) : Express.response :=
  status_json rt 500 (JObj [
    ("error", JStr "خطأ في الخادم");
    ("message", JStr "حدث خطأ أثناء معالجة طلب الاسترداد. يرجى المحاولة لاحقاً.")]).

(** [app.post("/api/redeem", ...)] on [req.body].  As in the serverless
    handler, the success log comes after the five assignments. *)
Definition redeem (rt : Runtime) (e : env) (st : state) (body : jsval)
    : Express.response * state :=
  if nullish body then (redeem_failed rt, st)
  else
    let code := get body "code" in
    let lightningAddress := get body "lightningAddress" in
    let email := get body "email" in
    if negb (truthy code) || negb (truthy lightningAddress) then
      (status_json rt 400 (JObj [
         ("error", JStr "رمز الاسترداد وعنوان محفظة Lightning مطلوبان");
         ("message", JStr "يرجى إدخال رمز الاسترداد وعنوان المحفظة")]), st)
    else
      match code with
      | JStr code =>
          let normalizedCode := trim rt (toUpperCase rt code) in
          match redeemCodes st !! normalizedCode with
          | None =>
              (status_json rt 404 (JObj [
                 ("error", JStr "رمز الاسترداد غير صالح");
                 ("message", JStr "الرمز المدخل غير موجود في قاعدة البيانات. تأكد من كتابة الرمز بشكل صحيح.")]), st)
          | Some codeData =>
              if Code.redeemed codeData then
                (status_json rt 400 (JObj [
                   ("error", JStr "تم استخدام هذا الرمز مسبقاً");
                   ("message", JStr ("تم استرداد هذا الرمز بتاريخ "
                      +:+ toLocaleDateString rt (Code.redeemedAt codeData)
                      +:+ ". كل رمز صالح للاستخدام مرة واحدة فقط."))]), st)
              else
                let txId := "LN-" +:+ pretty (Date_now e) +:+ "-"
                              +:+ toUpperCase rt (Str.hex (randomBytes e 4)) in
                let redeemedAt := toISOString rt (new_Date e) in
                let codeData' :=
                  Code.redeem redeemedAt lightningAddress txId (or_else email JNull) codeData in
                let st' :=
                  with_redeemCodes (<[normalizedCode := codeData']> (redeemCodes st)) st in
                (* console.log(`[REDEEM] ✓ Success: ${normalizedCode} |
                   ${codeData.sats.toLocaleString()} sats → ${lightningAddress} |
                   TX: ${txId}`) *)
                match to_strings rt [JStr normalizedCode;
                                     JStr (toLocaleString rt (Code.sats codeData'));
                                     lightningAddress; JStr txId] with
                | Throw _ => (redeem_failed rt, st')
                | Ok _ =>
                    (json rt (JObj [
                       ("success", JBool true);
                       ("message", JStr ("تم إرسال " +:+ toLocaleString rt (Code.sats codeData')
                                           +:+ " ساتوشي إلى محفظتك بنجاح!"));
                       ("playerName", JStr (Code.playerName codeData'));
                       ("sats", num (Code.sats codeData'));
                       ("lightningAddress", lightningAddress);
                       ("txId", JStr txId);
                       ("redeemedAt", JStr redeemedAt)]), st')
                end
          end
      | _ => (redeem_failed rt, st)
      end.

(** The signature block of [app.post("/api/ipn", ...)]: [Ok false] where
    the route answers 400. *)
Definition verify (cfg : config) (rt : Runtime) (headers : gmap string string)
    (payload : jsval) : res bool :=
  match configured (NOWPAYMENTS_IPN_SECRET cfg) with
  | None => Ok true
  | Some secret =>
      match Obj.own_props rt payload with
      | None => Throw (type_error_message rt "Object.keys")
      | Some props =>
          let sortedPayload :=
            foldl (λ obj key, Obj.set obj key (default JUndef (assoc key props)))
                  [] (sort rt (props.*1)) in
          let signature := hmac_sha512_hex rt secret (JSON_stringify rt (JObj sortedPayload)) in
          Ok (bool_decide (headers !! "x-nowpayments-sig" = Some signature))
      end
  end.

(** [app.post("/api/ipn", ...)] on [req.headers] and [req.body]; its
    [catch] answers 500 with the error's message.  As in the serverless
    handler, the log line comes before the order update. *)
Definition ipn (cfg : config) (rt : Runtime) (st : state)
    (headers : gmap string string) (payload : jsval) : Express.response * state :=
  match verify cfg rt headers payload with
  | Throw message => (status_json rt 500 (JObj [("error", JStr message)]), st)
  | Ok false => (status_json rt 400 (JObj [("error", JStr "Invalid signature")]), st)
  | Ok true =>
      if nullish payload then
        (status_json rt 500 (JObj [("error", JStr (type_error_message rt "destructure"))]), st)
      else
        let order_id := get payload "order_id" in
        let payment_status := get payload "payment_status" in
        let actually_paid := get payload "actually_paid" in
        let pay_amount := get payload "pay_amount" in
        (* console.log(`[IPN] Order: ${order_id} | Status: ${payment_status} |
           Paid: ${actually_paid}/${pay_amount}`) *)
        match to_strings rt [order_id; payment_status; actually_paid; pay_amount] with
        | Throw message => (status_json rt 500 (JObj [("error", JStr message)]), st)
        | Ok _ =>
            let st' :=
              match order_id with
              | JStr oid =>
                  match orders st !! oid with
                  | Some order =>
                      let st1 := with_orders
                        (<[oid := Order.set_status_paid payment_status actually_paid order]>
                           (orders st)) st in
                      if strict_eq_str payment_status "confirmed"
                         || strict_eq_str payment_status "finished"
                      then with_players (mark_sold (Order.playerId order) (players st1)) st1
                      else st1
                  | None => st
                  end
              | _ => st
              end in
            (json rt (JObj [("success", JBool true)]), st')
        end
  end.

(** [app.get("/api/order/:orderId", ...)] on [req.params.orderId]. *)
Definition order (rt : Runtime) (st : state) (orderId : string) : Express.response :=
  match orders st !! orderId with
  | None => status_json rt 404 (JObj [("error", JStr "Order not found")])
  | Some o => json rt (Order.to_js o)
  end.

(** [app.get("/api/cards", ...)]. *)
Definition cards (rt : Runtime) (st : state) : Express.response :=
  json rt (JArr (Player.to_js <$> players st)).

End Server.

(** The two deployments answer alike: same status and, unless it is the
    500 of a [catch], same body. *)
Definition same_answer (r : Response.t) (x : Express.response) : Prop :=
  Response.statusCode r = Express.status x ∧
  (Express.status x ≠ 500%Z → Response.body r = Express.json x).

(** ** Proof steps shared by the case analyses *)

(** Runs through the branches of a route and closes each with the lemma
    that a response built by [respond] has one of the four statuses. *)
Ltac uniform_cases lem :=
  repeat (simplify_eq/=; try case_match);
  try (apply lem; set_solver).

(** Closes an agreement of the two deployments on one branch. *)
Ltac agree :=
  eexists; split; [reflexivity|]; split; [reflexivity|]; simpl; intros; done.

(** * Properties *)

(** ** Sanity checks of the string and object model *)

Example arabic_literal : String.length "ساديو" = 10.
Proof. reflexivity. Qed.

Example replace_ex : Str.replace "redeem/" "" "redeem/abc" = "abc".
Proof. reflexivity. Qed.

Example split_ex : Str.split "/"%char "min-amount/btc" = ["min-amount"; "btc"].
Proof. reflexivity. Qed.

Example trim_ex : Str.ascii_trim (Str.ascii_upper "  nassr-r7cr x ") = "NASSR-R7CR X".
Proof. reflexivity. Qed.

Example hex_ex : Str.hex [Byte.x0a; Byte.xff] = "0aff".
Proof. reflexivity. Qed.

Example array_index_ex :
  Obj.array_index "10" = Some 10%N ∧ Obj.array_index "010" = None ∧
  Obj.array_index "4294967295" = None ∧ Obj.array_index "x1" = None ∧ Obj.array_index "" = None.
Proof. repeat split; reflexivity. Qed.
Example pretty_ex : pretty 1700000000000%Z = "1700000000000".
Proof. reflexivity. Qed.
Example set_ex rt: foldl (λ o k, Obj.set o k JNull) [] (sort rt ["b"; "9"; "a"; "10"; "__proto__"]) = [("9", JNull); ("10", JNull); ("a", JNull); ("b", JNull)].
Proof. reflexivity. Qed.

Example stringify_ex :
  Reference.stringify (JObj [("a", num 1); ("u", JUndef); ("b", JArr [JStr "x"; JNull])])
  = "{" +:+ Reference.quote "a" +:+ ":1," +:+ Reference.quote "b" +:+ ":["
      +:+ Reference.quote "x" +:+ ",null]}".
Proof. reflexivity. Qed.

Example redeem_ex :
  match start (Reference.cfg None) Reference.runtime (Reference.clock 1700000000000) initial_state
          (Reference.request "POST" "/api/redeem" []
             (JObj [("code", JStr " nassr-r7cr-gold-2025 "); ("lightningAddress", JStr "x@getalby.com")])) with
  | Done r st' =>
      Response.statusCode r = 200%Z ∧
      (Code.txId <$> redeemCodes st' !! "NASSR-R7CR-GOLD-2025") = Some (Some "LN-1700000000000-ABABABAB")
  | Await _ _ => False
  end.
Proof. vm_compute. split; reflexivity. Qed.

(** ** What the handlers can do to the stores *)

Section Effects.
Context (cfg : config) (rt : Runtime).

Lemma find_player_elem playerId ps p :
  find_player playerId ps = Some p → p ∈ ps.
Proof.
  unfold find_player. intros H. apply List.find_some in H as [H _].
  by apply list_elem_of_In.
Qed.

Lemma create_payment_effect e st ev o :
  create_payment cfg rt e st ev = Ok o → start_effect e st o.
Proof.
  unfold create_payment, nowpaymentsRequest_call, parse_body, destructure.
  intros H. repeat (simplify_eq/=; try case_match); try by constructor.
  eapply effect_create; eauto using find_player_elem.
Qed.

Lemma create_invoice_effect e st ev o :
  create_invoice cfg rt e st ev = Ok o → start_effect e st o.
Proof.
  unfold create_invoice, nowpaymentsRequest_call, parse_body, destructure.
  intros H. repeat (simplify_eq/=; try case_match); try by constructor.
  eapply effect_create; eauto using find_player_elem.
Qed.

Lemma ipn_effect e st ev o :
  ipn cfg rt st ev = Ok o → start_effect e st o.
Proof.
  unfold ipn, ipn_verify, parse_body, destructure, to_strings.
  intros H. repeat (simplify_eq/=; try case_match); by constructor.
Qed.

Lemma redeem_effect e st ev o :
  redeem rt e st ev = Ok o → start_effect e st o.
Proof.
  unfold redeem, parse_body, destructure, to_strings.
  intros H. repeat (simplify_eq/=; try case_match); by constructor.
Qed.

Lemma relay_effect e st endpoint k o :
  pending_order k = None → relay cfg rt endpoint k = Ok o → start_effect e st o.
Proof.
  unfold relay, nowpaymentsRequest_call.
  intros ? H. repeat (simplify_eq/=; try case_match). by constructor.
Qed.

Lemma start_has_effect e st ev : start_effect e st (start cfg rt e st ev).
Proof.
  unfold start. case_bool_decide; [constructor|].
  destruct (route cfg rt e st ev) as [o|m] eqn:Hr; [|constructor].
  unfold route in Hr.
  repeat match type of Hr with
         | (if ?b then _ else _) = _ => destruct b
         end;
    eauto using create_payment_effect, create_invoice_effect, ipn_effect,
      redeem_effect;
    try (eapply relay_effect; [|exact Hr]; reflexivity);
    try (simplify_eq; by constructor).
  unfold nowpaymentsRequest_call in Hr.
  repeat (simplify_eq/=; try case_match); by constructor.
Qed.

Lemma resume_has_effect k fo e st r st' :
  resume rt k fo e st = (r, st') → resume_effect k st st'.
Proof.
  unfold resume, resume_route, finish_payment, finish_invoice, finish_payment_status,
    to_strings.
  intros H. destruct (nowpaymentsRequest_return rt fo) as [data|m]; destruct k;
    repeat (simplify_eq/=; try case_match); try by constructor.
  all: by eapply resumed_store.
Qed.

End Effects.

(** ** The catalogue under [mark_sold] *)

Lemma mark_sold_ids pid ps : Player.id <$> mark_sold pid ps = Player.id <$> ps.
Proof.
  induction ps as [|p ps IH]; [done|]. cbn [mark_sold].
  case_bool_decide; [done|]. rewrite !fmap_cons. by f_equal.
Qed.

Lemma mark_sold_idempotent pid ps : mark_sold pid (mark_sold pid ps) = mark_sold pid ps.
Proof.
  induction ps as [|p ps IH]; [done|]. simpl. case_bool_decide as Hp; simpl.
  - by rewrite bool_decide_true.
  - by rewrite bool_decide_false, IH.
Qed.

Lemma sold_monotone_refl ps : sold_monotone ps ps.
Proof. induction ps; by constructor. Qed.

Lemma sold_monotone_trans ps1 ps2 ps3 :
  sold_monotone ps1 ps2 → sold_monotone ps2 ps3 → sold_monotone ps1 ps3.
Proof.
  unfold sold_monotone. intros H12 H23.
  eapply Forall2_trans; [| exact H12 | exact H23].
  intros p1 p2 p3 [E12 S12] [E23 S23]. split; [congruence | auto].
Qed.

Lemma mark_sold_monotone pid ps : sold_monotone ps (mark_sold pid ps).
Proof.
  induction ps as [|p ps IH]; [constructor|]. simpl. case_bool_decide.
  - constructor; [done|]. apply sold_monotone_refl.
  - by constructor.
Qed.



(** ** The invariant of the stores *)

Section Invariant.
Context (cfg : config) (rt : Runtime).

Lemma ipn_update_redeemCodes oid ps ap st :
  redeemCodes (ipn_update oid ps ap st) = redeemCodes st.
Proof. unfold ipn_update. by repeat case_match. Qed.

Lemma ipn_update_ids oid ps ap st :
  Player.id <$> players (ipn_update oid ps ap st) = Player.id <$> players st.
Proof. unfold ipn_update. repeat case_match; simpl; by rewrite ?mark_sold_ids. Qed.

Lemma ipn_update_sold oid ps ap st :
  sold_monotone (players st) (players (ipn_update oid ps ap st)).
Proof.
  unfold ipn_update.
  repeat case_match; simpl; auto using sold_monotone_refl, mark_sold_monotone.
Qed.

(** A webhook keeps every order under its key, with its id and item. *)
Lemma ipn_update_orders oid ps ap st k o' :
  orders (ipn_update oid ps ap st) !! k = Some o' →
  ∃ o, orders st !! k = Some o ∧ Order.orderId o' = Order.orderId o ∧
       Order.playerId o' = Order.playerId o.
Proof.
  unfold ipn_update. intros H.
  repeat case_match; simpl in H; eauto.
  all: destruct (decide (s = k)) as [->|];
    [rewrite lookup_insert_eq in H; simplify_eq; eauto
    |rewrite lookup_insert_ne in H by done; eauto].
Qed.

Lemma boot_consistent : consistent boot.
Proof.
  split; [done|done| |by intros ??? ?%elem_of_nil].
  intros oid o. simpl. by rewrite lookup_empty.
Qed.

Lemma step_consistent s l s' : step cfg rt s l s' → consistent s → consistent s'.
Proof.
  intros Hstep [Hids Hcodes Hord Hpend]. destruct Hstep as
    [st fl ev e r st' Hs | st fl ev e req k Hs | st fl1 k fl2 fo e r st' Hs];
    simpl in *.
  - pose proof (start_has_effect cfg rt e st ev) as Heff. rewrite Hs in Heff.
    inversion Heff as [| ? oid ps ap | ? key c at_ to tx mail Hkey Hc | |];
      subst; split; simpl; auto.
    + by rewrite ipn_update_ids.
    + by rewrite ipn_update_redeemCodes.
    + intros oid' o' (o & Ho & -> & ->)%ipn_update_orders. by apply Hord.
    + rewrite dom_insert_L, <- Hcodes.
      assert (key ∈ dom (redeemCodes st)) by (apply elem_of_dom; eauto).
      set_solver.
  - pose proof (start_has_effect cfg rt e st ev) as Heff. rewrite Hs in Heff.
    inversion Heff as [| | |? ? Hk|? ? q Hk Hq Hsold]; subst; split; simpl; auto.
    + intros k' oid p Hin Hk'. apply elem_of_app in Hin as [Hin|Hin]; [eauto|].
      apply list_elem_of_singleton in Hin as ->. congruence.
    + intros k' oid p Hin Hk'. apply elem_of_app in Hin as [Hin|Hin]; [eauto|].
      apply list_elem_of_singleton in Hin as ->.
      rewrite Hk in Hk'. injection Hk' as <- <-. split; [by eexists|].
      rewrite <- Hids. by apply list_elem_of_fmap_2.
  - apply resume_has_effect in Hs.
    inversion Hs as [|oid q o Hk Hoid Hpid]; subst; split; simpl; auto.
    + intros k' oid p Hin. apply Hpend. set_solver.
    + intros oid' o'. destruct (decide (Order.orderId o = oid')) as [<-|].
      * rewrite lookup_insert_eq. intros [= <-]. rewrite Hpid.
        split; [done|]. eapply Hpend; [|done]. set_solver.
      * rewrite lookup_insert_ne by done. apply Hord.
    + intros k' oid' p Hin. apply Hpend. set_solver.
Qed.

Lemma run_consistent s tr s' : run cfg rt s tr s' → consistent s → consistent s'.
Proof. induction 1; eauto using step_consistent. Qed.

Lemma reachable_consistent s : reachable cfg rt s → consistent s.
Proof. intros [tr Hrun]. eauto using run_consistent, boot_consistent. Qed.

End Invariant.

(** ** C7: a sold item stays sold *)

Section Sold.
Context (cfg : config) (rt : Runtime).

Lemma step_sold s l s' :
  step cfg rt s l s' → sold_monotone (players (store s)) (players (store s')).
Proof.
  destruct 1 as [st fl ev e r st' Hs | st fl ev e req k Hs | st fl1 k fl2 fo e r st' Hs];
    simpl.
  - pose proof (start_has_effect cfg rt e st ev) as Heff. rewrite Hs in Heff.
    inversion Heff; subst; simpl; auto using sold_monotone_refl, ipn_update_sold.
  - apply sold_monotone_refl.
  - apply resume_has_effect in Hs. inversion Hs; subst; apply sold_monotone_refl.
Qed.

End Sold.

(** C7.  Along every run of the server, from any state and under any
    interleaving of requests, gateway answers, webhooks, redemptions and
    reads, the catalogue keeps its items in place and every item that was
    sold is still sold. *)
Theorem sold_never_reverts cfg rt s tr s' :
  run cfg rt s tr s' → sold_monotone (players (store s)) (players (store s')).
Proof.
  induction 1 as [|s l s1 tr s2 Hstep _ IH]; [apply sold_monotone_refl|].
  eapply sold_monotone_trans; [by eapply step_sold | done].
Qed.

Lemma sold_never_reverts_witness :
  ∃ s', sold_monotone (players initial_state) (players (store s')) ∧
        Player.sold <$> players (store s') = [true; false; true; false; true; false] ∧
        (Order.status <$> orders (store s') !! Scenario.orderId) = Some (JStr "failed").
Proof.
  eexists. split.
  - eapply (sold_never_reverts Scenario.cfg Reference.runtime boot).
    eapply run_cons.
    { eapply (step_call _ _ _ _ Scenario.invoice_request (Reference.clock 1700000000000)).
      vm_compute. reflexivity. }
    eapply run_cons.
    { eapply (step_resume _ _ _ [] _ [] Scenario.invoice_answer (Reference.clock 1700000000500)).
      vm_compute. reflexivity. }
    eapply run_cons.
    { eapply (step_answer _ _ _ _ (Scenario.webhook "confirmed") (Reference.clock 1700000001000)).
      vm_compute. reflexivity. }
    eapply run_cons.
    { eapply (step_answer _ _ _ _ (Scenario.webhook "failed") (Reference.clock 1700000002000)).
      vm_compute. reflexivity. }
    apply run_nil.
  - split; vm_compute; reflexivity.
Defined.

(** ** Strings *)

Lemma string_app_cons c s t : String c s +:+ t = String c (s +:+ t).
Proof. reflexivity. Qed.

Lemma string_app_nil s : "" +:+ s = s.
Proof. reflexivity. Qed.

Lemma startsWith_app pre t : Str.startsWith (pre +:+ t) pre = true.
Proof.
  induction pre as [|c pre IH]; [done|].
  rewrite string_app_cons. simpl. by rewrite bool_decide_true, IH.
Qed.

Lemma drop_app pre t : Str.drop (String.length pre) (pre +:+ t) = t.
Proof. induction pre as [|c pre IH]; [done|]. rewrite string_app_cons. apply IH. Qed.

Lemma replace_prefix c pre s :
  Str.replace (String c pre) "" (String c pre +:+ s) = s.
Proof.
  rewrite string_app_cons. unfold Str.replace; fold Str.replace.
  rewrite <- string_app_cons. by rewrite startsWith_app, drop_app.
Qed.

(** ** Routing *)

Section Routing.
Context (cfg : config) (rt : Runtime).

Lemma start_redeem e st ev :
  Event.httpMethod ev = "POST" → resolve_path ev = "redeem" →
  start cfg rt e st ev = caught rt st (redeem rt e st ev).
Proof. intros Hm Hp. unfold start, route, is_route. rewrite Hm, Hp. reflexivity. Qed.

Lemma start_ipn e st ev :
  Event.httpMethod ev = "POST" → resolve_path ev = "ipn" →
  start cfg rt e st ev = caught rt st (ipn cfg rt st ev).
Proof. intros Hm Hp. unfold start, route, is_route. rewrite Hm, Hp. reflexivity. Qed.

Lemma start_create_payment e st ev :
  Event.httpMethod ev = "POST" → resolve_path ev = "create-payment" →
  start cfg rt e st ev = caught rt st (create_payment cfg rt e st ev).
Proof. intros Hm Hp. unfold start, route, is_route. rewrite Hm, Hp. reflexivity. Qed.

Lemma start_create_invoice e st ev :
  Event.httpMethod ev = "POST" → resolve_path ev = "create-invoice" →
  start cfg rt e st ev = caught rt st (create_invoice cfg rt e st ev).
Proof. intros Hm Hp. unfold start, route, is_route. rewrite Hm, Hp. reflexivity. Qed.

Lemma start_get_redeem e st ev code :
  Event.httpMethod ev = "GET" → resolve_path ev = "redeem/" +:+ code →
  start cfg rt e st ev = Done (get_redeem rt st ("redeem/" +:+ code)) st.
Proof. intros Hm Hp. unfold start, route, is_route. rewrite Hm, Hp. reflexivity. Qed.

End Routing.

(** ** C1: a code is redeemed at most once *)

Section RedeemOnce.
Context (cfg : config) (rt : Runtime).

Lemma redeem_call_inv k ev :
  redeem_call rt k ev = true →
  Event.httpMethod ev = "POST" ∧ resolve_path ev = "redeem" ∧
  ∃ b s, Event.body ev = Some b ∧ get b "code" = JStr s ∧ normalize rt s = k.
Proof.
  unfold redeem_call. intros H.
  apply andb_true_iff in H as [[Hm Hp]%andb_true_iff Hb].
  apply bool_decide_eq_true in Hm, Hp. split; [done|split; [done|]].
  destruct (Event.body ev) as [b|]; [|done].
  destruct (get b "code") as [| | | |s| |] eqn:Hc; try done.
  apply bool_decide_eq_true in Hb. eauto.
Qed.

(** A redeem call answered with 200 found its record unused and marked it. *)
Lemma redeem_ok_inv e st ev r st' :
  caught rt st (redeem rt e st ev) = Done r st' → Response.statusCode r = 200%Z →
  ∃ b s c at_ to tx mail,
    Event.body ev = Some b ∧ get b "code" = JStr s ∧
    redeemCodes st !! normalize rt s = Some c ∧ Code.redeemed c = false ∧
    st' = with_redeemCodes
            (<[normalize rt s := Code.redeem at_ to tx mail c]> (redeemCodes st)) st.
Proof.
  unfold redeem, parse_body, destructure, to_strings. intros H Hr.
  repeat (simplify_eq/=; try case_match); try done.
  repeat eexists; eauto.
Qed.

(** Once redeemed, a record is frozen. *)
Lemma redeemed_frozen k c s l s' :
  step cfg rt s l s' →
  redeemCodes (store s) !! k = Some c → Code.redeemed c = true →
  redeemCodes (store s') !! k = Some c.
Proof.
  intros Hstep Hc Hred.
  destruct Hstep as
    [st fl ev e r st' Hs | st fl ev e req k' Hs | st fl1 k' fl2 fo e r st' Hs];
    simpl in *.
  - pose proof (start_has_effect cfg rt e st ev) as Heff. rewrite Hs in Heff.
    inversion Heff as [| | ? key c0 at_ to tx mail Hkey Hc0 | |]; subst.
    + done.
    + by rewrite ipn_update_redeemCodes.
    + simpl. destruct (decide (key = k)) as [->|]; [congruence|].
      by rewrite lookup_insert_ne.
  - done.
  - apply resume_has_effect in Hs. by inversion Hs; subst.
Qed.

Lemma run_redeemed_frozen k c s tr s' :
  run cfg rt s tr s' →
  redeemCodes (store s) !! k = Some c → Code.redeemed c = true →
  redeemCodes (store s') !! k = Some c.
Proof. induction 1; eauto using redeemed_frozen. Qed.

Lemma redeemed_at_stable k s l s' :
  step cfg rt s l s' → redeemed_at k (store s) → redeemed_at k (store s').
Proof. intros Hstep (c & Hc & Hred). exists c. eauto using redeemed_frozen. Qed.

Lemma redeem_success_flips k s l s' :
  step cfg rt s l s' → redeem_success rt k l = true →
  ¬ redeemed_at k (store s) ∧ redeemed_at k (store s').
Proof.
  destruct 1 as [st fl ev e r st' Hs | |]; simpl; [|done..].
  intros [Hcall Hr%bool_decide_eq_true]%andb_true_iff.
  apply redeem_call_inv in Hcall as (Hm & Hp & b & s0 & Hb & Hcode & Hk).
  rewrite (start_redeem cfg rt e st ev Hm Hp) in Hs.
  apply redeem_ok_inv in Hs as (b' & s' & c & at_ & to & tx & mail & Hb' & Hcode' & Hc & Hred & ->);
    [|done].
  assert (s' = s0) as -> by congruence. rewrite Hk in *. split.
  - intros (c' & Hc' & Hred'). congruence.
  - eexists. simpl. by rewrite lookup_insert_eq.
Qed.

Lemma no_success_once_redeemed k s tr s' :
  run cfg rt s tr s' → redeemed_at k (store s) → redeem_successes rt k tr = 0%nat.
Proof.
  unfold redeem_successes.
  induction 1 as [|s l s1 tr s2 Hstep _ IH]; intros Hred; [done|]. simpl.
  destruct (redeem_success rt k l) eqn:Hl.
  - by destruct (redeem_success_flips k s l s1 Hstep Hl).
  - eauto using redeemed_at_stable.
Qed.

Lemma successes_at_most_one k s tr s' :
  run cfg rt s tr s' → (redeem_successes rt k tr ≤ 1)%nat.
Proof.
  induction 1 as [|s l s1 tr s2 Hstep Hrun IH]; [unfold redeem_successes; simpl; lia|].
  unfold redeem_successes in *. simpl.
  destruct (redeem_success rt k l) eqn:Hl; [|done]. simpl.
  destruct (redeem_success_flips k s l s1 Hstep Hl) as [_ Hred].
  pose proof (no_success_once_redeemed k s1 tr s2 Hrun Hred) as H0.
  unfold redeem_successes in H0. lia.
Qed.

Lemma answers_respond n b : answers rt (respond rt n b) n b.
Proof. done. Qed.

Lemma internal_error_status m : Response.statusCode (internal_error rt m) = 500%Z.
Proof. done. Qed.

Lemma redeem_used e st ev b s c :
  Event.httpMethod ev = "POST" → resolve_path ev = "redeem" →
  Event.body ev = Some b → get b "code" = JStr s → s ≠ "" →
  truthy (get b "lightningAddress") = true →
  redeemCodes st !! normalize rt s = Some c → Code.redeemed c = true →
  start cfg rt e st ev = Done (respond rt 400 (already_redeemed rt c)) st.
Proof.
  intros Hm Hp Hb Hcode Hs Haddr Hc Hred.
  rewrite (start_redeem cfg rt e st ev Hm Hp).
  assert (Hn : nullish b = false) by (by destruct b).
  unfold redeem, parse_body, destructure. rewrite Hb. simpl. rewrite Hn. simpl.
  rewrite Hcode, Haddr. simpl.
  rewrite bool_decide_false by done. simpl. by rewrite Hc, Hred.
Qed.

Lemma redeem_incomplete e st ev b :
  Event.httpMethod ev = "POST" → resolve_path ev = "redeem" →
  Event.body ev = Some b → nullish b = false →
  truthy (get b "code") = false ∨ truthy (get b "lightningAddress") = false →
  start cfg rt e st ev = Done (respond rt 400 fields_required) st.
Proof.
  intros Hm Hp Hb Hn Hmissing.
  rewrite (start_redeem cfg rt e st ev Hm Hp).
  unfold redeem, parse_body, destructure. rewrite Hb. simpl. rewrite Hn. simpl.
  by destruct Hmissing as [-> | ->]; rewrite ?orb_true_r.
Qed.

End RedeemOnce.

(** C1, as the code has it.  A redeem call that carries a code and a
    destination address, on a code whose record is already redeemed, is
    answered with HTTP 400 and the already-used error, whose message embeds
    the stored [redeemedAt] as the host renders its date, and it leaves
    every store as it was.  A redeem call that lacks the code or the address
    is answered with HTTP 400 and the required-fields error before any record
    is looked at, whatever the state of the code.  A redeemed record is never
    written again, and along any run of the server, whatever else is
    interleaved, at most one redeem call on a given code is answered with
    success. *)
Theorem redeem_at_most_once cfg rt :
  (∀ e st ev b s c,
     Event.httpMethod ev = "POST" → resolve_path ev = "redeem" →
     Event.body ev = Some b → get b "code" = JStr s → s ≠ "" →
     truthy (get b "lightningAddress") = true →
     redeemCodes st !! normalize rt s = Some c → Code.redeemed c = true →
     ∃ r, start cfg rt e st ev = Done r st ∧
          answers rt r 400
            (JObj [("error", JStr "تم استخدام هذا الرمز مسبقاً");
                   ("message", JStr ("تم استرداد هذا الرمز بتاريخ "
                      +:+ toLocaleDateString rt (Code.redeemedAt c)
                      +:+ ". كل رمز صالح للاستخدام مرة واحدة فقط."))]))
  ∧ (∀ e st ev b,
       Event.httpMethod ev = "POST" → resolve_path ev = "redeem" →
       Event.body ev = Some b → nullish b = false →
       truthy (get b "code") = false ∨ truthy (get b "lightningAddress") = false →
       ∃ r, start cfg rt e st ev = Done r st ∧ answers rt r 400 fields_required)
  ∧ (∀ k c s tr s',
       run cfg rt s tr s' →
       redeemCodes (store s) !! k = Some c → Code.redeemed c = true →
       redeemCodes (store s') !! k = Some c)
  ∧ (∀ k s tr s', run cfg rt s tr s' → (redeem_successes rt k tr ≤ 1)%nat).
Proof.
  split; [|split; [|split]].
  - intros e st ev b s c Hm Hp Hb Hcode Hs Haddr Hc Hred. eexists. split.
    + by eapply redeem_used.
    + apply answers_respond.
  - intros e st ev b Hm Hp Hb Hn Hmissing. eexists. split.
    + by eapply redeem_incomplete.
    + apply answers_respond.
  - intros. by eapply run_redeemed_frozen.
  - intros. by eapply successes_at_most_one.
Qed.

Lemma redeem_at_most_once_witness :
  (∃ c r, Code.redeemedAt c = Some "1700000000000" ∧
        start Scenario.cfg Reference.runtime (Reference.clock 1700000005000)
          (Scenario.redeemed_once 1700000000000)
          (Scenario.redeem_request "NASSR-R7CR-GOLD-2025")
        = Done r (Scenario.redeemed_once 1700000000000) ∧
        answers Reference.runtime r 400 (already_redeemed Reference.runtime c))
  ∧ (∃ tr s', run Scenario.cfg Reference.runtime boot tr s' ∧
        redeemCodes (store s') !! "NASSR-R7CR-GOLD-2025"
          = redeemCodes (Scenario.redeemed_once 1700000000000) !! "NASSR-R7CR-GOLD-2025" ∧
        Response.statusCode <$> (tr ≫= λ l, match l with Answered _ _ r => [r] | _ => [] end)
          = [200; 400]%Z ∧
        (redeem_successes Reference.runtime "NASSR-R7CR-GOLD-2025" tr ≤ 1)%nat).
Proof.
  pose proof (redeem_at_most_once Scenario.cfg Reference.runtime)
    as (Hused & _ & Hfrozen & Honce).
  split.
  - assert (∃ c, redeemCodes (Scenario.redeemed_once 1700000000000)
                   !! normalize Reference.runtime "NASSR-R7CR-GOLD-2025" = Some c ∧
                 Code.redeemed c = true ∧ Code.redeemedAt c = Some "1700000000000")
      as (c & Hc & Hred & Hat) by (eexists; repeat split; vm_compute; reflexivity).
    destruct (Hused (Reference.clock 1700000005000) (Scenario.redeemed_once 1700000000000)
                (Scenario.redeem_request "NASSR-R7CR-GOLD-2025") _ "NASSR-R7CR-GOLD-2025" c
                eq_refl eq_refl eq_refl eq_refl ltac:(done) eq_refl Hc Hred)
      as (r & Hs & Hr).
    by exists c, r.
  - eexists _, _. split; [|split; [|split]]; [| | |eapply (Honce _ boot)].
    + answer (Scenario.redeem_request "NASSR-R7CR-GOLD-2025") (Reference.clock 1700000000000).
      answer (Scenario.redeem_request " nassr-r7cr-gold-2025 ") (Reference.clock 1700000005000).
      apply run_nil.
    + vm_compute. reflexivity.
    + vm_compute. reflexivity.
    + answer (Scenario.redeem_request "NASSR-R7CR-GOLD-2025") (Reference.clock 1700000000000).
      answer (Scenario.redeem_request " nassr-r7cr-gold-2025 ") (Reference.clock 1700000005000).
      apply run_nil.
Defined.

(** Against the specification's wording: a redeem call on a redeemed code
    that names no destination address is refused for the missing field; the
    response is not the already-used error and carries no [redeemedAt]. *)
Lemma used_code_without_address :
  let st := Scenario.redeemed_once 1700000000000 in
  let ev := Reference.request "POST" "/api/redeem" []
              (JObj [("code", JStr "NASSR-R7CR-GOLD-2025")]) in
  ∃ c r,
    redeemCodes st !! "NASSR-R7CR-GOLD-2025" = Some c ∧ Code.redeemed c = true ∧
    start Scenario.cfg Reference.runtime (Reference.clock 1700000005000) st ev = Done r st ∧
    answers Reference.runtime r 400 fields_required ∧
    Response.body r ≠ JSON_stringify Reference.runtime (already_redeemed Reference.runtime c).
Proof.
  intros st ev.
  assert (∃ c, redeemCodes st !! "NASSR-R7CR-GOLD-2025" = Some c ∧ Code.redeemed c = true ∧
               String.length (JSON_stringify Reference.runtime
                                (already_redeemed Reference.runtime c)) = 206%nat)
    as (c & Hc & Hred & Hlen) by (eexists; repeat split; vm_compute; reflexivity).
  exists c, (respond Reference.runtime 400 fields_required).
  split; [exact Hc|]. split; [exact Hred|].
  split; [vm_compute; reflexivity|]. split; [done|].
  intros Heq. apply (f_equal String.length) in Heq. rewrite Hlen in Heq.
  vm_compute in Heq. discriminate Heq.
Qed.

(** ** C5: a successful redemption *)




Section RedeemSuccess.
Context (cfg : config) (rt : Runtime).


End RedeemSuccess.




(** ** C2 and C4: what a webhook does to an order *)

Section Webhook.
Context (cfg : config) (rt : Runtime).



Lemma ipn_update_known oid o ps ap st :
  orders st !! oid = Some o →
  ipn_update (JStr oid) ps ap st =
    {| orders := <[oid := Order.set_status_paid ps ap o]> (orders st);
       redeemCodes := redeemCodes st;
       players := if terminal_success ps then mark_sold (Order.playerId o) (players st)
                  else players st |}.
Proof. intros Ho. unfold ipn_update. rewrite Ho. by destruct (terminal_success ps). Qed.

Lemma ipn_update_unknown order_id ps ap st :
  (∀ oid, order_id = JStr oid → orders st !! oid = None) →
  ipn_update order_id ps ap st = st.
Proof.
  intros Hunknown. unfold ipn_update. destruct order_id; try done.
  by rewrite (Hunknown _ eq_refl).
Qed.



End Webhook.


Lemma invoiced_reachable : reachable Scenario.cfg Reference.runtime Scenario.invoiced.
Proof.
  eexists.
  call Scenario.invoice_request (Reference.clock 1700000000000).
  resume_with (@nil pending) (@nil pending) Scenario.invoice_answer
    (Reference.clock 1700000000500).
  vm_compute. apply run_nil.
Qed.






(** ** C8: no payment for a sold item *)

(** C8.  A create-payment request that names a catalogue item whose [sold]
    flag is set is answered with HTTP 400 and the error "Card already sold";
    the handler ends there, so it makes no gateway call, and the stores,
    the order store among them, are unchanged. *)
Theorem sold_item_refused cfg rt e st ev b p :
  Event.httpMethod ev = "POST" → resolve_path ev = "create-payment" →
  Event.body ev = Some b → nullish b = false →
  find_player (get b "playerId") (players st) = Some p → Player.sold p = true →
  start cfg rt e st ev
    = Done (respond rt 400 (JObj [("error", JStr "Card already sold")])) st
  ∧ ∀ req k, start cfg rt e st ev ≠ Await req k.
Proof.
  intros Hm Hp Hb Hn Hfind Hsold.
  assert (start cfg rt e st ev
          = Done (respond rt 400 (JObj [("error", JStr "Card already sold")])) st) as ->.
  { rewrite (start_create_payment cfg rt e st ev Hm Hp).
    unfold create_payment, parse_body, destructure. rewrite Hb. simpl. rewrite Hn. simpl.
    by rewrite Hfind, Hsold. }
  done.
Qed.

Lemma sold_item_refused_witness :
  start Scenario.cfg Reference.runtime (Reference.clock 1700000000000) initial_state
    (Scenario.payment_request 3)
  = Done (respond Reference.runtime 400 (JObj [("error", JStr "Card already sold")]))
         initial_state.
Proof.
  refine (proj1 (sold_item_refused Scenario.cfg Reference.runtime _ initial_state
                   (Scenario.payment_request 3) _ _
                   eq_refl eq_refl eq_refl eq_refl _ _)).
  - vm_compute. reflexivity.
  - reflexivity.
Defined.

(** ** C9: order ids *)

Section OrderIds.
Context (cfg : config) (rt : Runtime).

Lemma pending_order_id e st ev req k oid p :
  start cfg rt e st ev = Await req k → pending_order k = Some (oid, p) →
  oid = "NASSR-" +:+ pretty (Date_now e) +:+ "-" +:+ pretty (Player.id p).
Proof.
  intros Hs Hk. pose proof (start_has_effect cfg rt e st ev) as Heff.
  rewrite Hs in Heff. inversion Heff as [| | |? ? Hnone|? ? q Hsome]; subst.
  - congruence.
  - rewrite Hk in Hsome. by injection Hsome as -> ->.
Qed.

Lemma resume_stores k oid p status data e st :
  pending_order k = Some (oid, p) → Fetch.ok status = true → nullish data = false →
  ∃ r o,
    resume rt k (Fetch.Json status data) e st
      = (r, with_orders (<[oid := o]> (orders st)) st) ∧
    Order.orderId o = oid ∧ Order.playerId o = Player.id p ∧
    Order.createdAt o = toISOString rt (new_Date e) ∧ Order.actuallyPaid o = None.
Proof.
  intros Hk Hok Hn.
  destruct k; simplify_eq/=; unfold resume; simpl; rewrite Hok; simpl;
    unfold finish_payment, finish_invoice, to_strings; rewrite Hn;
    try destruct (existsb _ _); simpl; eauto 10.
Qed.

End OrderIds.

(** C9.  Every order in a reachable state is filed under its own
    [orderId], which is ["NASSR-"], a number, ["-"] and the order's item
    id; the number is the clock in milliseconds read when the creation
    request (payment or invoice) was handled.  The gateway's answer to a
    creation stores the new record under that id.  So two creations for the
    same item that read the same millisecond get the same id, and when both
    are stored the order map ends as if the first had never been stored:
    the ids are not unique. *)
Theorem order_id_not_unique cfg rt :
  (∀ s oid o, reachable cfg rt s → orders (store s) !! oid = Some o →
     Order.orderId o = oid ∧
     ∃ t : Z, oid = "NASSR-" +:+ pretty t +:+ "-" +:+ pretty (Order.playerId o))
  ∧ (∀ e st ev req k oid p,
       start cfg rt e st ev = Await req k → pending_order k = Some (oid, p) →
       oid = "NASSR-" +:+ pretty (Date_now e) +:+ "-" +:+ pretty (Player.id p))
  ∧ (∀ k oid p status data e st,
       pending_order k = Some (oid, p) → Fetch.ok status = true → nullish data = false →
       ∃ r o,
         resume rt k (Fetch.Json status data) e st
           = (r, with_orders (<[oid := o]> (orders st)) st) ∧
         Order.orderId o = oid ∧ Order.playerId o = Player.id p)
  ∧ (∀ e1 st1 ev1 req1 k1 oid1 p1 e2 st2 ev2 req2 k2 oid2 p2,
       start cfg rt e1 st1 ev1 = Await req1 k1 → pending_order k1 = Some (oid1, p1) →
       start cfg rt e2 st2 ev2 = Await req2 k2 → pending_order k2 = Some (oid2, p2) →
       Player.id p1 = Player.id p2 → Date_now e1 = Date_now e2 →
       oid1 = oid2 ∧
       ∀ st status1 data1 e1' status2 data2 e2',
         Fetch.ok status1 = true → nullish data1 = false →
         Fetch.ok status2 = true → nullish data2 = false →
         let first := (resume rt k1 (Fetch.Json status1 data1) e1' st).2 in
         orders (resume rt k2 (Fetch.Json status2 data2) e2' first).2
         = orders (resume rt k2 (Fetch.Json status2 data2) e2' st).2).
Proof.
  split; [|split; [|split]].
  - intros s oid o Hreach Ho. apply reachable_consistent in Hreach as [_ _ Hord _].
    destruct (Hord _ _ Ho) as (? & ? & _). done.
  - intros. by eapply pending_order_id.
  - intros k oid p status data e st Hk Hok Hn.
    destruct (resume_stores rt k oid p status data e st Hk Hok Hn)
      as (r & o & ? & ? & ? & _). eauto.
  - intros e1 st1 ev1 req1 k1 oid1 p1 e2 st2 ev2 req2 k2 oid2 p2
      Hs1 Hk1 Hs2 Hk2 Hid Hnow.
    assert (oid1 = oid2) as <-.
    { rewrite (pending_order_id cfg rt _ _ _ _ _ _ _ Hs1 Hk1),
        (pending_order_id cfg rt _ _ _ _ _ _ _ Hs2 Hk2). by rewrite Hid, Hnow. }
    split; [done|].
    intros st status1 data1 e1' status2 data2 e2' Hok1 Hn1 Hok2 Hn2.
    destruct (resume_stores rt k1 oid1 p1 status1 data1 e1' st Hk1 Hok1 Hn1)
      as (r1 & o1 & -> & _).
    simpl.
    destruct k2; simplify_eq/=; unfold resume; simpl; rewrite Hok2; simpl;
      unfold finish_payment, finish_invoice, to_strings; rewrite Hn2; simpl;
      try destruct (_ || _); simpl; by rewrite insert_insert_eq.
Qed.

Lemma order_id_not_unique_witness :
  (∃ o, orders (store Scenario.invoiced) !! "NASSR-1700000000000-1" = Some o ∧
        Order.orderId o = "NASSR-1700000000000-1")
  ∧ (∃ req1 k1 p1 req2 k2 p2,
       start Scenario.cfg Reference.runtime (Reference.clock 1700000000000) initial_state
         Scenario.invoice_request = Await req1 k1 ∧
       start Scenario.cfg Reference.runtime (Reference.clock 1700000000000) initial_state
         (Scenario.payment_request 1) = Await req2 k2 ∧
       pending_order k1 = Some ("NASSR-1700000000000-1", p1) ∧
       pending_order k2 = Some ("NASSR-1700000000000-1", p2) ∧
       orders (resume Reference.runtime k2 (Fetch.Json 201 (JObj [("payment_id", num 7)]))
                 (Reference.clock 1700000000900)
                 (resume Reference.runtime k1 Scenario.invoice_answer
                    (Reference.clock 1700000000500) initial_state).2).2
       = orders (resume Reference.runtime k2 (Fetch.Json 201 (JObj [("payment_id", num 7)]))
                   (Reference.clock 1700000000900) initial_state).2).
Proof.
  destruct (order_id_not_unique Scenario.cfg Reference.runtime)
    as (Hfiled & Hgen & Hstore & Hclash).
  split.
  - assert (∃ o, orders (store Scenario.invoiced) !! "NASSR-1700000000000-1" = Some o)
      as [o Ho] by (eexists; vm_compute; reflexivity).
    exists o. split; [done|]. by destruct (Hfiled _ _ _ invoiced_reachable Ho).
  - assert (∃ req1 k1 p1,
      start Scenario.cfg Reference.runtime (Reference.clock 1700000000000) initial_state
        Scenario.invoice_request = Await req1 k1 ∧
      pending_order k1 = Some ("NASSR-1700000000000-1", p1) ∧ Player.id p1 = 1%Z)
      as (req1 & k1 & p1 & Hs1 & Hk1 & Hp1)
      by (eexists _, _, _; split; [|split]; vm_compute; reflexivity).
    assert (∃ req2 k2 p2,
      start Scenario.cfg Reference.runtime (Reference.clock 1700000000000) initial_state
        (Scenario.payment_request 1) = Await req2 k2 ∧
      pending_order k2 = Some ("NASSR-1700000000000-1", p2) ∧ Player.id p2 = 1%Z)
      as (req2 & k2 & p2 & Hs2 & Hk2 & Hp2)
      by (eexists _, _, _; split; [|split]; vm_compute; reflexivity).
    exists req1, k1, p1, req2, k2, p2. repeat (split; [done|]).
    destruct (Hclash _ _ _ _ _ _ _ _ _ _ _ _ _ _ Hs1 Hk1 Hs2 Hk2) as [_ Hover];
      [congruence | reflexivity |].
    by apply Hover.
Defined.

(** ** C10: the redeem-status route only reads *)

(** C10.  A GET of [redeem/<code>] ends in a response and leaves every
    store unchanged.  When the normalised code has a record, the response is
    200 with exactly the record's [playerName], [sats] and [redeemed]; no
    other field of the record reaches it, so records that agree on these
    three give the same response.  Otherwise it is 404.  The Express route
    answers the same and writes nothing. *)
Theorem redeem_status_read_only cfg rt e st ev code :
  Event.httpMethod ev = "GET" → resolve_path ev = "redeem/" +:+ code →
  (∀ c, redeemCodes st !! normalize rt code = Some c →
     let shown := JObj [("playerName", JStr (Code.playerName c));
                        ("sats", num (Code.sats c));
                        ("redeemed", JBool (Code.redeemed c))] in
     start cfg rt e st ev = Done (respond rt 200 shown) st ∧
     Express.get_redeem rt st code
       = {| Express.status := 200; Express.json := JSON_stringify rt shown |})
  ∧ (redeemCodes st !! normalize rt code = None →
     let missing := JObj [("error", JStr "Code not found")] in
     start cfg rt e st ev = Done (respond rt 404 missing) st ∧
     Express.get_redeem rt st code
       = {| Express.status := 404; Express.json := JSON_stringify rt missing |})
  ∧ (∃ r, start cfg rt e st ev = Done r st)
  ∧ (∀ st2 c c2,
       redeemCodes st !! normalize rt code = Some c →
       redeemCodes st2 !! normalize rt code = Some c2 →
       Code.playerName c = Code.playerName c2 → Code.sats c = Code.sats c2 →
       Code.redeemed c = Code.redeemed c2 →
       (∃ r, start cfg rt e st ev = Done r st ∧ start cfg rt e st2 ev = Done r st2) ∧
       Express.get_redeem rt st code = Express.get_redeem rt st2 code).
Proof.
  intros Hm Hp.
  assert (Hstart : ∀ st, start cfg rt e st ev
            = Done (get_redeem rt st ("redeem/" +:+ code)) st)
    by (intros; by apply start_get_redeem).
  assert (Hget : ∀ st, get_redeem rt st ("redeem/" +:+ code) =
      match redeemCodes st !! normalize rt code with
      | None => respond rt 404 (JObj [("error", JStr "Code not found")])
      | Some c => respond rt 200 (JObj [("playerName", JStr (Code.playerName c));
                                        ("sats", num (Code.sats c));
                                        ("redeemed", JBool (Code.redeemed c))])
      end).
  { intros st0. unfold get_redeem. by rewrite (replace_prefix "r" "edeem/" code). }
  split; [|split; [|split]].
  - intros c Hc. simpl. rewrite Hstart, Hget. unfold Express.get_redeem.
    fold (normalize rt code). by rewrite Hc.
  - intros Hc. simpl. rewrite Hstart, Hget. unfold Express.get_redeem.
    fold (normalize rt code). by rewrite Hc.
  - rewrite Hstart. eauto.
  - intros st2 c c2 Hc Hc2 Hname Hsats Hred. rewrite !Hstart, !Hget.
    unfold Express.get_redeem. fold (normalize rt code).
    rewrite Hc, Hc2, Hname, Hsats, Hred. eauto.
Qed.

Lemma redeem_status_read_only_witness :
  start Scenario.cfg Reference.runtime (Reference.clock 1700000009000)
    (Scenario.redeemed_once 1700000000000)
    (Reference.request "GET" "/api/redeem/nassr-r7cr-gold-2025" [] JNull)
  = Done (respond Reference.runtime 200
            (JObj [("playerName", JStr "كريستيانو رونالدو"); ("sats", num 5200000);
                   ("redeemed", JBool true)]))
         (Scenario.redeemed_once 1700000000000)
  ∧ Express.get_redeem Reference.runtime (Scenario.redeemed_once 1700000000000)
      "nassr-r7cr-gold-2025"
    = {| Express.status := 200;
         Express.json := JSON_stringify Reference.runtime
           (JObj [("playerName", JStr "كريستيانو رونالدو"); ("sats", num 5200000);
                  ("redeemed", JBool true)]) |}.
Proof.
  destruct (redeem_status_read_only Scenario.cfg Reference.runtime
              (Reference.clock 1700000009000) (Scenario.redeemed_once 1700000000000)
              (Reference.request "GET" "/api/redeem/nassr-r7cr-gold-2025" [] JNull)
              "nassr-r7cr-gold-2025" eq_refl eq_refl) as (Hfound & _).
  assert (∃ c, redeemCodes (Scenario.redeemed_once 1700000000000)
                 !! normalize Reference.runtime "nassr-r7cr-gold-2025" = Some c ∧
               Code.playerName c = "كريستيانو رونالدو" ∧ Code.sats c = 5200000%Z ∧
               Code.redeemed c = true) as (c & Hc & Hname & Hsats & Hred)
    by (eexists; repeat split; vm_compute; reflexivity).
  specialize (Hfound c Hc). simpl in Hfound. rewrite Hname, Hsats, Hred in Hfound.
  exact Hfound.
Defined.

(** ** C6: normalisation of codes *)

















Section Normalisation.
Context (cfg : config) (rt : Runtime).





End Normalisation.




(** ** C3: the webhook signature *)





Section Signature.
Context (cfg : config) (rt : Runtime).




End Signature.




(** * Further properties of the handlers *)

(** ** Every response has the same shape *)

Section Uniform.
Context (cfg : config) (rt : Runtime).

Lemma uniform_respond n b : n ∈ [200; 400; 404; 500]%Z → uniform rt (respond rt n b).
Proof. intros. by exists n, b. Qed.

Lemma uniform_internal_error m : uniform rt (internal_error rt m).
Proof. apply uniform_respond. set_solver. Qed.

Lemma create_payment_uniform e st ev r st' :
  create_payment cfg rt e st ev = Ok (Done r st') → uniform rt r.
Proof.
  unfold create_payment, nowpaymentsRequest_call, parse_body, destructure, to_strings.
  intros H. uniform_cases uniform_respond.
Qed.

Lemma create_invoice_uniform e st ev r st' :
  create_invoice cfg rt e st ev = Ok (Done r st') → uniform rt r.
Proof.
  unfold create_invoice, nowpaymentsRequest_call, parse_body, destructure, to_strings.
  intros H. uniform_cases uniform_respond.
Qed.

Lemma ipn_uniform st ev r st' : ipn cfg rt st ev = Ok (Done r st') → uniform rt r.
Proof.
  unfold ipn, ipn_verify, parse_body, destructure, to_strings. intros H. uniform_cases uniform_respond.
Qed.

Lemma redeem_uniform e st ev r st' : redeem rt e st ev = Ok (Done r st') → uniform rt r.
Proof. unfold redeem, parse_body, destructure, to_strings. intros H. uniform_cases uniform_respond. Qed.

Lemma relay_awaits endpoint k o :
  relay cfg rt endpoint k = Ok o → ∃ req, o = Await req k.
Proof.
  unfold relay, nowpaymentsRequest_call. intros H.
  repeat (simplify_eq/=; try case_match). eauto.
Qed.

Lemma get_redeem_uniform st path : uniform rt (get_redeem rt st path).
Proof. unfold get_redeem. case_match; apply uniform_respond; set_solver. Qed.

Lemma get_order_uniform st path : uniform rt (get_order rt st path).
Proof. unfold get_order. case_match; apply uniform_respond; set_solver. Qed.

Lemma start_uniform e st ev r st' :
  start cfg rt e st ev = Done r st' → uniform rt r.
Proof.
  unfold start. case_bool_decide.
  { intros [= <- _]. apply uniform_respond. set_solver. }
  destruct (route cfg rt e st ev) as [o|m] eqn:Hr; simpl;
    [|intros [= <- _]; apply uniform_internal_error].
  intros ->. unfold route in Hr.
  repeat match type of Hr with
         | (if ?b then _ else _) = _ => destruct b
         end;
    eauto using create_payment_uniform, create_invoice_uniform, ipn_uniform,
      redeem_uniform;
    try (apply relay_awaits in Hr as [? [=]]);
    try (simplify_eq; eauto using get_redeem_uniform, get_order_uniform;
         apply uniform_respond; set_solver).
  unfold nowpaymentsRequest_call in Hr.
  repeat (simplify_eq/=; try case_match). apply uniform_respond. set_solver.
Qed.

Lemma resume_uniform k fo e st r st' :
  resume rt k fo e st = (r, st') → uniform rt r.
Proof.
  unfold resume, resume_route, finish_payment, finish_invoice, finish_payment_status, to_strings.
  intros H. destruct (nowpaymentsRequest_return rt fo) as [data|m]; destruct k;
    repeat (simplify_eq/=; try case_match);
    first [apply uniform_internal_error | apply uniform_respond; set_solver].
Qed.

End Uniform.

(** X1.  Whatever the request and however it ends (success, validation
    error, unknown route, caught exception), and likewise after any answer
    of the gateway, the response carries the same four headers (JSON
    content type, CORS open to every origin), a status among 200, 400, 404
    and 500, and a body that is the JSON text of a value. *)
Theorem responses_uniform cfg rt :
  (∀ e st ev r st',
     start cfg rt e st ev = Done r st' →
     Response.headers r = cors_headers ∧
     Response.statusCode r ∈ [200; 400; 404; 500]%Z ∧
     ∃ b, Response.body r = JSON_stringify rt b)
  ∧ (∀ k fo e st r st',
       resume rt k fo e st = (r, st') →
       Response.headers r = cors_headers ∧
       Response.statusCode r ∈ [200; 400; 404; 500]%Z ∧
       ∃ b, Response.body r = JSON_stringify rt b).
Proof.
  split.
  - intros e st ev r st' (n & b & -> & Hn)%start_uniform. simpl. eauto.
  - intros k fo e st r st' (n & b & -> & Hn)%resume_uniform. simpl. eauto.
Qed.

Lemma responses_uniform_witness :
  ∃ r, start Scenario.cfg Reference.runtime (Reference.clock 1700000000000) initial_state
         (Reference.request "DELETE" "/api/order/NASSR-1-1" [] JNull) = Done r initial_state ∧
       Response.headers r = cors_headers ∧ Response.statusCode r = 404%Z.
Proof.
  eexists. split; [vm_compute; reflexivity|].
  split; [|reflexivity].
  refine (proj1 (proj1 (responses_uniform Scenario.cfg Reference.runtime)
                   (Reference.clock 1700000000000) initial_state
                   (Reference.request "DELETE" "/api/order/NASSR-1-1" [] JNull) _
                   initial_state _)).
  vm_compute. reflexivity.
Defined.

(** ** Without a gateway credential *)

Section NoKey.
Context (cfg : config) (rt : Runtime).
Hypothesis no_key : configured (NOWPAYMENTS_API_KEY cfg) = None.

Lemma call_refused endpoint method body :
  nowpaymentsRequest_call cfg rt endpoint method body = Throw missing_key_message.
Proof using no_key. unfold nowpaymentsRequest_call. by rewrite no_key. Qed.

Lemma start_never_calls e st ev req k : start cfg rt e st ev ≠ Await req k.
Proof using no_key.
  unfold start. case_bool_decide; [done|].
  destruct (route cfg rt e st ev) as [o|m] eqn:Hr; simpl; [|done].
  intros ->.
  unfold route, relay, create_payment, create_invoice, ipn, ipn_verify, redeem,
    parse_body, destructure, to_strings in Hr.
  repeat match type of Hr with
         | (if ?b then _ else _) = _ => destruct b
         end;
    repeat (simplify_eq/=; rewrite ?call_refused in *; try case_match).
Qed.

Lemma step_without_key s l s' :
  step cfg rt s l s' → inflight s = [] → orders (store s) = ∅ →
  inflight s' = [] ∧ orders (store s') = ∅.
Proof using no_key.
  destruct 1 as [st fl ev e r st' Hs | st fl ev e req k Hs | st fl1 k fl2 fo e r st' Hs];
    simpl; intros Hfl Hord.
  - split; [done|].
    pose proof (start_has_effect cfg rt e st ev) as Heff. rewrite Hs in Heff.
    inversion Heff as [| ? oid ps ap | | |]; subst; simpl; try done.
    unfold ipn_update. destruct oid; try done. by rewrite Hord, lookup_empty.
  - by apply start_never_calls in Hs.
  - by destruct fl1.
Qed.

Lemma run_without_key s tr s' :
  run cfg rt s tr s' → inflight s = [] → orders (store s) = ∅ →
  inflight s' = [] ∧ orders (store s') = ∅.
Proof using no_key.
  induction 1 as [|s l s1 tr s2 Hstep _ IH]; [done|].
  intros Hfl Hord. destruct (step_without_key _ _ _ Hstep Hfl Hord). by apply IH.
Qed.

Lemma status_without_key e st ev :
  Event.httpMethod ev = "GET" → resolve_path ev = "status" →
  start cfg rt e st ev =
    Done (respond rt 200 (JObj [("server", JStr "ok");
            ("nowpayments", JObj [("message", JStr missing_key_message)])])) st.
Proof using no_key.
  intros Hm Hp. unfold start, route, is_route. rewrite Hm, Hp. simpl.
  by rewrite call_refused.
Qed.

Lemma create_payment_without_key e st ev b p :
  Event.httpMethod ev = "POST" → resolve_path ev = "create-payment" →
  Event.body ev = Some b → nullish b = false →
  find_player (get b "playerId") (players st) = Some p → Player.sold p = false →
  truthy (get b "currency") = true → truthy (get b "customer") = true →
  truthy (get (get b "customer") "email") = true →
  start cfg rt e st ev = Done (respond rt 500 (JObj [("error", JStr missing_key_message)])) st.
Proof using no_key.
  intros Hm Hp Hb Hn Hfind Hsold Hcur Hcust Hmail.
  rewrite (start_create_payment cfg rt e st ev Hm Hp).
  unfold create_payment, parse_body, destructure, to_strings. rewrite Hb. simpl. rewrite Hn. simpl.
  rewrite Hfind, Hsold, Hcur, Hcust, Hmail. simpl. by rewrite call_refused.
Qed.

End NoKey.

(** X2.  When the gateway credential is unset or empty, no request ever
    reaches the gateway: the handler always ends in a response.  So from
    start-up no order is ever stored and nothing ever waits for the
    gateway.  The status route then answers 200 with the configuration
    message in place of the gateway's status, and a create-payment request
    that passes every validation is answered 500 with that message, the
    stores unchanged. *)
Theorem no_call_without_key cfg rt :
  configured (NOWPAYMENTS_API_KEY cfg) = None →
  (∀ e st ev req k, start cfg rt e st ev ≠ Await req k)
  ∧ (∀ s, reachable cfg rt s → inflight s = [] ∧ orders (store s) = ∅)
  ∧ (∀ e st ev,
       Event.httpMethod ev = "GET" → resolve_path ev = "status" →
       start cfg rt e st ev =
         Done (respond rt 200 (JObj [("server", JStr "ok");
                 ("nowpayments", JObj [("message", JStr missing_key_message)])])) st)
  ∧ (∀ e st ev b p,
       Event.httpMethod ev = "POST" → resolve_path ev = "create-payment" →
       Event.body ev = Some b → nullish b = false →
       find_player (get b "playerId") (players st) = Some p → Player.sold p = false →
       truthy (get b "currency") = true → truthy (get b "customer") = true →
       truthy (get (get b "customer") "email") = true →
       start cfg rt e st ev
         = Done (respond rt 500 (JObj [("error", JStr missing_key_message)])) st).
Proof.
  intros Hkey. split; [|split; [|split]].
  - intros. by apply start_never_calls.
  - intros s [tr Hrun]. by eapply run_without_key.
  - intros. by apply status_without_key.
  - intros. by eapply create_payment_without_key.
Qed.

Lemma no_call_without_key_witness :
  start Cases.no_key Reference.runtime (Cases.at_ 1700000000000) initial_state
    (Scenario.payment_request 1)
  = Done (respond Reference.runtime 500 (JObj [("error", JStr missing_key_message)]))
         initial_state
  ∧ start Cases.no_key Reference.runtime (Cases.at_ 1700000000000) initial_state
      (Cases.get "/api/status")
    = Done (respond Reference.runtime 200 (JObj [("server", JStr "ok");
              ("nowpayments", JObj [("message", JStr missing_key_message)])]))
           initial_state.
Proof.
  destruct (no_call_without_key Cases.no_key Reference.runtime eq_refl)
    as (_ & _ & Hstatus & Hpay).
  split.
  - refine (Hpay _ initial_state (Scenario.payment_request 1) _ _
              eq_refl eq_refl eq_refl eq_refl _ _ eq_refl eq_refl eq_refl).
    + vm_compute. reflexivity.
    + reflexivity.
  - exact (Hstatus _ initial_state (Cases.get "/api/status") eq_refl eq_refl).
Defined.

(** ** What goes out to the gateway *)

Section Calls.
Context (cfg : config) (rt : Runtime).

Lemma call_shape endpoint method body req :
  nowpaymentsRequest_call cfg rt endpoint method body = Ok req →
  configured (NOWPAYMENTS_API_KEY cfg) = Some (Fetch.api_key req) ∧
  Fetch.url req = NOWPAYMENTS_BASE cfg +:+ endpoint ∧
  Fetch.method req = method ∧
  Fetch.body req = (b ← body; if truthy b then Some (JSON_stringify rt b) else None).
Proof.
  unfold nowpaymentsRequest_call.
  destruct (configured (NOWPAYMENTS_API_KEY cfg)); [|done]. by intros [= <-].
Qed.

Lemma start_call_shape e st ev req k :
  start cfg rt e st ev = Await req k →
  configured (NOWPAYMENTS_API_KEY cfg) = Some (Fetch.api_key req) ∧
  Str.startsWith (Fetch.url req) (NOWPAYMENTS_BASE cfg) = true ∧
  match pending_order k with
  | Some _ =>
      Event.httpMethod ev = "POST" ∧ Fetch.method req = "POST" ∧ is_Some (Fetch.body req)
  | None =>
      Event.httpMethod ev = "GET" ∧ Fetch.method req = "GET" ∧ Fetch.body req = None
  end.
Proof.
  unfold start. case_bool_decide; [done|].
  destruct (route cfg rt e st ev) as [o|m] eqn:Hr; simpl; [|done].
  intros ->.
  unfold route, relay, create_payment, create_invoice, ipn, ipn_verify, redeem,
    parse_body, destructure, to_strings, is_route, mbind, res_bind in Hr.
  repeat match type of Hr with
         | (if ?b && _ then _ else _) = _ => destruct b eqn:?; simpl in Hr
         | (if ?b then _ else _) = _ => destruct b eqn:?
         end;
    repeat (simplify_eq/=; try case_match);
    match goal with
    | H : nowpaymentsRequest_call _ _ _ _ _ = Ok _ |- _ =>
        apply call_shape in H as (? & Hurl & ? & Hbody)
    end;
    rewrite Hurl, startsWith_app; simpl in Hbody;
    repeat match goal with H : bool_decide _ = true |- _ =>
             apply bool_decide_eq_true in H end;
    eauto.
Qed.

End Calls.

(** X3.  Every call the handler makes to the gateway carries the configured,
    non-empty credential and goes to a URL under the configured base (the
    sandbox unless production is switched on).  A creation (payment or
    invoice) is a POST with a body, made for a POST request; every other
    call is a GET without a body, made for a GET request. *)
Theorem gateway_call_shape cfg rt e st ev req k :
  start cfg rt e st ev = Await req k →
  configured (NOWPAYMENTS_API_KEY cfg) = Some (Fetch.api_key req) ∧
  Str.startsWith (Fetch.url req) (NOWPAYMENTS_BASE cfg) = true ∧
  match pending_order k with
  | Some _ =>
      Event.httpMethod ev = "POST" ∧ Fetch.method req = "POST" ∧ is_Some (Fetch.body req)
  | None =>
      Event.httpMethod ev = "GET" ∧ Fetch.method req = "GET" ∧ Fetch.body req = None
  end.
Proof. apply start_call_shape. Qed.

Lemma gateway_call_shape_witness :
  ∃ req k,
    start Scenario.cfg Reference.runtime (Cases.at_ 1700000000000) initial_state
      (Scenario.payment_request 1) = Await req k ∧
    Some "key" = Some (Fetch.api_key req) ∧
    Str.startsWith (Fetch.url req) "https://api-sandbox.nowpayments.io/v1" = true.
Proof.
  assert (∃ req k,
    start Scenario.cfg Reference.runtime (Cases.at_ 1700000000000) initial_state
      (Scenario.payment_request 1) = Await req k) as (req & k & Hs)
    by (eexists _, _; vm_compute; reflexivity).
  exists req, k. split; [exact Hs|].
  destruct (gateway_call_shape Scenario.cfg Reference.runtime _ _ _ _ _ Hs)
    as (Hkey & Hurl & _).
  split; [exact Hkey | exact Hurl].
Defined.

(** ** When the gateway fails *)

Section GatewayFailure.
Context (rt : Runtime).

Lemma resume_creation_throw k oid p fo e st m :
  pending_order k = Some (oid, p) → nowpaymentsRequest_return rt fo = Throw m →
  resume rt k fo e st = (internal_error rt m, st).
Proof. intros Hk Hfo. unfold resume. destruct k; simplify_eq/=; by rewrite Hfo. Qed.

Lemma resume_creation_null k oid p status e st data :
  pending_order k = Some (oid, p) → Fetch.ok status = true → nullish data = true →
  ∃ m, resume rt k (Fetch.Json status data) e st = (internal_error rt m, st).
Proof.
  intros Hk Hok Hn. unfold resume.
  destruct k; simplify_eq/=; rewrite Hok; simpl;
    unfold finish_payment, finish_invoice, to_strings; rewrite Hn; eauto.
Qed.

(** A resumed request changes the stores only by storing the order of a
    creation that the gateway answered with a 2xx status and JSON data; it
    then answers 200, or 500 when the log line that follows throws. *)
Lemma resume_changes_inv k fo e st r st' :
  resume rt k fo e st = (r, st') → st' ≠ st →
  ∃ oid p status data o,
    pending_order k = Some (oid, p) ∧ fo = Fetch.Json status data ∧
    Fetch.ok status = true ∧ nullish data = false ∧
    Response.statusCode r = (if creation_log_throws k data then 500 else 200)%Z ∧
    st' = with_orders (<[oid := o]> (orders st)) st.
Proof.
  unfold resume, resume_route, finish_payment, finish_invoice, finish_payment_status,
    nowpaymentsRequest_return, to_strings, creation_log_throws.
  intros H Hne. destruct fo as [msg|status|status data], k;
    repeat (simplify_eq/=; try case_match); try done.
  all: eexists _, _, _, _, _; repeat split; eauto.
  all: simpl; repeat case_match; simplify_eq/=; done.
Qed.

End GatewayFailure.

(** X4.  The answer of the gateway to a pending creation stores an order
    only when it is a 2xx response with JSON data other than [null].  The
    client then gets 200, except that a create-payment whose log line throws
    (the gateway's [pay_amount] or the requested currency does not convert
    to a string) gets 500 with the order stored all the same.  On every
    other outcome the stores are left as they were and the client gets 500:
    with the transport's message after "Network error calling NOWPayments: "
    when the call itself failed, with the status when the body was not JSON,
    and with the gateway's own [message] when it answered with an error
    status. *)
Theorem creation_needs_gateway_success rt :
  (∀ k fo e st r st',
     resume rt k fo e st = (r, st') → st' ≠ st →
     ∃ oid p status data o,
       pending_order k = Some (oid, p) ∧ fo = Fetch.Json status data ∧
       Fetch.ok status = true ∧ nullish data = false ∧
       Response.statusCode r = (if creation_log_throws k data then 500 else 200)%Z ∧
       st' = with_orders (<[oid := o]> (orders st)) st)
  ∧ (∀ k oid p e st msg,
       pending_order k = Some (oid, p) →
       resume rt k (Fetch.Failed msg) e st
         = (respond rt 500 (JObj [("error",
              JStr ("Network error calling NOWPayments: " +:+ msg))]), st))
  ∧ (∀ k oid p e st status,
       pending_order k = Some (oid, p) →
       resume rt k (Fetch.InvalidJson status) e st
         = (respond rt 500 (JObj [("error",
              JStr ("NOWPayments returned invalid JSON (status " +:+ pretty status
                      +:+ ")"))]), st))
  ∧ (∀ k oid p e st status data message,
       pending_order k = Some (oid, p) → Fetch.ok status = false →
       get data "message" = JStr message → message ≠ "" →
       resume rt k (Fetch.Json status data) e st
         = (respond rt 500 (JObj [("error", JStr message)]), st))
  ∧ (∀ k oid p e st status data,
       pending_order k = Some (oid, p) → Fetch.ok status = true → nullish data = true →
       ∃ m, resume rt k (Fetch.Json status data) e st
              = (respond rt 500 (JObj [("error", JStr m)]), st)).
Proof.
  split; [|split; [|split; [|split]]].
  - apply resume_changes_inv.
  - intros k oid p e st msg Hk.
    by rewrite (resume_creation_throw rt k oid p (Fetch.Failed msg) e st _ Hk eq_refl).
  - intros k oid p e st status Hk.
    by rewrite (resume_creation_throw rt k oid p (Fetch.InvalidJson status) e st _ Hk
                  eq_refl).
  - intros k oid p e st status data message Hk Hok Hmsg Hne.
    assert (nullish data = false) as Hn by (by destruct data).
    rewrite (resume_creation_throw rt k oid p _ e st message Hk).
    + unfold internal_error. by rewrite bool_decide_false.
    + simpl. rewrite Hok, Hn, Hmsg. unfold or_else. simpl.
      by rewrite bool_decide_false.
  - intros k oid p e st status data Hk Hok Hn.
    destruct (resume_creation_null rt k oid p status e st data Hk Hok Hn) as [m ->].
    unfold internal_error. eauto.
Qed.

Lemma creation_needs_gateway_success_witness :
  resume Reference.runtime Cases.waiting_invoice
    (Fetch.Json 403 (JObj [("message", JStr "Invalid api key")]))
    (Cases.at_ 1700000000500) initial_state
  = (respond Reference.runtime 500 (JObj [("error", JStr "Invalid api key")]), initial_state)
  ∧ resume Reference.runtime Cases.waiting_payment (Fetch.Failed "socket hang up")
      (Cases.at_ 1700000000500) initial_state
    = (respond Reference.runtime 500 (JObj [("error",
         JStr "Network error calling NOWPayments: socket hang up")]), initial_state).
Proof.
  destruct (creation_needs_gateway_success Reference.runtime)
    as (_ & Hfailed & _ & Herror & _).
  split.
  - by refine (Herror Cases.waiting_invoice _ _ _ initial_state 403%Z
                 (JObj [("message", JStr "Invalid api key")]) "Invalid api key"
                 eq_refl eq_refl eq_refl _).
  - exact (Hfailed Cases.waiting_payment _ _ _ initial_state "socket hang up" eq_refl).
Defined.

(** ** Reads, preflights and unknown routes *)

Section Reads.
Context (cfg : config) (rt : Runtime).

Lemma start_get_keeps e st ev r st' :
  Event.httpMethod ev = "GET" → start cfg rt e st ev = Done r st' → st' = st.
Proof.
  intros Hm. unfold start. rewrite Hm. simpl.
  destruct (route cfg rt e st ev) as [o|m] eqn:Hr; simpl; [|by intros [= _ <-]].
  intros ->. unfold route, is_route, relay, mbind, res_bind in Hr. rewrite Hm in Hr.
  simpl in Hr.
  repeat match type of Hr with
         | (if ?b then _ else _) = _ => destruct b
         end;
    repeat (simplify_eq/=; try case_match); done.
Qed.

Lemma resume_relay_keeps k fo e st :
  pending_order k = None → (resume rt k fo e st).2 = st.
Proof.
  intros Hk. destruct (resume rt k fo e st) as [r st'] eqn:Hres.
  apply resume_has_effect in Hres. inversion Hres; subst; simpl; [done|congruence].
Qed.

Lemma start_get_awaits e st ev req k :
  Event.httpMethod ev = "GET" → start cfg rt e st ev = Await req k →
  pending_order k = None.
Proof.
  intros Hm Hs. destruct (start_call_shape cfg rt e st ev req k Hs) as (_ & _ & Hk).
  destruct (pending_order k); [|done]. destruct Hk as (Hpost & _). congruence.
Qed.

Lemma status_resumes fo e st :
  ∃ b, resume rt KStatus fo e st
       = (respond rt 200 (JObj [("server", JStr "ok"); ("nowpayments", b)]), st).
Proof. unfold resume. simpl. destruct (nowpaymentsRequest_return rt fo); eauto. Qed.

Lemma status_starts e st ev :
  Event.httpMethod ev = "GET" → resolve_path ev = "status" →
  (∃ b, start cfg rt e st ev
        = Done (respond rt 200 (JObj [("server", JStr "ok"); ("nowpayments", b)])) st)
  ∨ (∃ req, start cfg rt e st ev = Await req KStatus).
Proof.
  intros Hm Hp. unfold start, route, is_route. rewrite Hm, Hp. simpl.
  destruct (nowpaymentsRequest_call cfg rt "/status" "GET" None); simpl; eauto.
Qed.

Lemma start_options e st ev :
  Event.httpMethod ev = "OPTIONS" →
  start cfg rt e st ev = Done (respond rt 200 (JObj [])) st.
Proof. intros Hm. unfold start. by rewrite Hm. Qed.

Lemma start_other_method e st ev :
  Event.httpMethod ev ≠ "GET" → Event.httpMethod ev ≠ "POST" →
  Event.httpMethod ev ≠ "OPTIONS" →
  start cfg rt e st ev =
    Done (respond rt 404 (JObj [("error", JStr "Route not found");
            ("path", JStr (resolve_path ev));
            ("method", JStr (Event.httpMethod ev))])) st.
Proof.
  intros Hget Hpost Hopt. unfold start, route, is_route.
  rewrite (bool_decide_false (Event.httpMethod ev = "OPTIONS")) by done.
  rewrite !(bool_decide_false (Event.httpMethod ev = "GET")) by done.
  by rewrite !(bool_decide_false (Event.httpMethod ev = "POST")) by done.
Qed.

End Reads.

(** X5.  The status route never fails: when no call can be made it answers
    200 at once, and whatever the gateway then does (answer, error status,
    broken JSON, no connection) the client gets 200 with [server: "ok"] and
    the gateway's status or the error's message beside it; the stores are
    untouched. *)
Theorem status_always_ok cfg rt e st ev :
  Event.httpMethod ev = "GET" → resolve_path ev = "status" →
  ((∃ b, start cfg rt e st ev
         = Done (respond rt 200 (JObj [("server", JStr "ok"); ("nowpayments", b)])) st)
   ∨ (∃ req, start cfg rt e st ev = Await req KStatus))
  ∧ ∀ fo e' st0, ∃ b,
      resume rt KStatus fo e' st0
      = (respond rt 200 (JObj [("server", JStr "ok"); ("nowpayments", b)]), st0).
Proof.
  intros Hm Hp. split; [by apply status_starts|]. intros. apply status_resumes.
Qed.

Lemma status_always_ok_witness :
  (∃ req, start Scenario.cfg Reference.runtime (Cases.at_ 1700000000000) initial_state
            (Cases.get "/.netlify/functions/api/status") = Await req KStatus)
  ∧ (∃ b, resume Reference.runtime KStatus (Fetch.Failed "ECONNREFUSED")
            (Cases.at_ 1700000000100) initial_state
          = (respond Reference.runtime 200
               (JObj [("server", JStr "ok"); ("nowpayments", b)]), initial_state)).
Proof.
  destruct (status_always_ok Scenario.cfg Reference.runtime (Cases.at_ 1700000000000)
              initial_state (Cases.get "/.netlify/functions/api/status") eq_refl eq_refl)
    as [_ Hres].
  split; [eexists; vm_compute; reflexivity|]. apply Hres.
Defined.

(** X6.  A GET request never changes the stores, whatever its path: if the
    handler answers at once the stores are as before, and if it first calls
    the gateway, the continuation creates no order and leaves the stores as
    they are when the answer arrives. *)
Theorem get_is_safe cfg rt e st ev :
  Event.httpMethod ev = "GET" →
  (∀ r st', start cfg rt e st ev = Done r st' → st' = st)
  ∧ (∀ req k, start cfg rt e st ev = Await req k →
       pending_order k = None ∧ ∀ fo e' st0, (resume rt k fo e' st0).2 = st0).
Proof.
  intros Hm. split.
  - intros r st'. by apply start_get_keeps.
  - intros req k Hs. pose proof (start_get_awaits cfg rt e st ev req k Hm Hs) as Hk.
    split; [done|]. intros. by apply resume_relay_keeps.
Qed.

Lemma get_is_safe_witness :
  ∃ r, start Scenario.cfg Reference.runtime (Cases.at_ 1700000000000)
         (store Scenario.invoiced) (Cases.get "/api/order/NASSR-1700000000000-1")
       = Done r (store Scenario.invoiced) ∧ Response.statusCode r = 200%Z.
Proof.
  assert (∃ r st', start Scenario.cfg Reference.runtime (Cases.at_ 1700000000000)
         (store Scenario.invoiced) (Cases.get "/api/order/NASSR-1700000000000-1")
       = Done r st' ∧ Response.statusCode r = 200%Z) as (r & st' & Hs & Hr)
    by (eexists _, _; split; vm_compute; reflexivity).
  exists r. split; [|done].
  rewrite Hs. f_equal.
  exact (proj1 (get_is_safe Scenario.cfg Reference.runtime (Cases.at_ 1700000000000)
                  (store Scenario.invoiced) (Cases.get "/api/order/NASSR-1700000000000-1")
                  eq_refl) r st' Hs).
Defined.

(** X7.  A CORS preflight is answered 200 with an empty object whatever its
    path and body, before any route is looked at.  A request with any other
    method than GET, POST and OPTIONS matches no route and is answered 404
    "Route not found" with the resolved path and the method echoed back.
    Neither touches the stores or the gateway. *)
Theorem preflight_and_unknown_methods cfg rt e st ev :
  (Event.httpMethod ev = "OPTIONS" →
   start cfg rt e st ev = Done (respond rt 200 (JObj [])) st)
  ∧ (Event.httpMethod ev ≠ "GET" → Event.httpMethod ev ≠ "POST" →
     Event.httpMethod ev ≠ "OPTIONS" →
     start cfg rt e st ev =
       Done (respond rt 404 (JObj [("error", JStr "Route not found");
               ("path", JStr (resolve_path ev));
               ("method", JStr (Event.httpMethod ev))])) st).
Proof. split; [apply start_options | apply start_other_method]. Qed.

Lemma preflight_and_unknown_methods_witness :
  start Scenario.cfg Reference.runtime (Cases.at_ 1700000000000) initial_state
    (Reference.request "OPTIONS" "/api/redeem" [] JNull)
  = Done (respond Reference.runtime 200 (JObj [])) initial_state
  ∧ start Scenario.cfg Reference.runtime (Cases.at_ 1700000000000) initial_state
      (Reference.request "PUT" "/api/redeem" [] JNull)
    = Done (respond Reference.runtime 404 (JObj [("error", JStr "Route not found");
              ("path", JStr "redeem"); ("method", JStr "PUT")])) initial_state.
Proof.
  split.
  - exact (proj1 (preflight_and_unknown_methods Scenario.cfg Reference.runtime _
                    initial_state (Reference.request "OPTIONS" "/api/redeem" [] JNull))
             eq_refl).
  - by refine (proj2 (preflight_and_unknown_methods Scenario.cfg Reference.runtime _
                       initial_state (Reference.request "PUT" "/api/redeem" [] JNull))
                 _ _ _).
Defined.

(** ** Validation of the creation requests *)

Lemma find_player_number playerId ps p :
  find_player playerId ps = Some p → ∃ q, playerId = JNum q.
Proof.
  unfold find_player. intros [_ H]%List.find_some.
  destruct playerId; try done. eauto.
Qed.

Section Validation.
Context (cfg : config) (rt : Runtime).

Lemma create_payment_checked e st ev b :
  Event.httpMethod ev = "POST" → resolve_path ev = "create-payment" →
  Event.body ev = Some b → nullish b = false →
  start cfg rt e st ev =
    match find_player (get b "playerId") (players st) with
    | None => Done (respond rt 404 (JObj [("error", JStr "Card not found")])) st
    | Some player =>
        if Player.sold player then
          Done (respond rt 400 (JObj [("error", JStr "Card already sold")])) st
        else if negb (truthy (get b "currency")) then
          Done (respond rt 400 (JObj [("error", JStr "Currency is required")])) st
        else if negb (truthy (get b "customer"))
                || negb (truthy (get (get b "customer") "email")) then
          Done (respond rt 400 (JObj [("error", JStr "Customer email is required")])) st
        else
          match configured (NOWPAYMENTS_API_KEY cfg) with
          | None => Done (respond rt 500 (JObj [("error", JStr missing_key_message)])) st
          | Some key =>
              Await {| Fetch.url := NOWPAYMENTS_BASE cfg +:+ "/payment";
                       Fetch.method := "POST";
                       Fetch.api_key := key;
                       Fetch.body := Some (JSON_stringify rt (JObj [
                         ("price_amount", num (Player.price player));
                         ("price_currency", JStr "sar");
                         ("pay_currency", get b "currency");
                         ("order_id", JStr (make_orderId (Date_now e) player));
                         ("order_description", JStr (order_description player));
                         ("ipn_callback_url", JStr (origin ev +:+ "/api/ipn"))])) |}
                    (KPayment (make_orderId (Date_now e) player) player
                       (get b "currency") (get b "redeemOption") (get b "customer"))
          end
    end.
Proof.
  intros Hm Hp Hb Hn. rewrite (start_create_payment cfg rt e st ev Hm Hp).
  unfold create_payment, parse_body, destructure, nowpaymentsRequest_call, to_strings.
  rewrite Hb. simpl. rewrite Hn. simpl.
  repeat case_match; simplify_eq/=; try done.
Qed.

Lemma create_invoice_checked e st ev b :
  Event.httpMethod ev = "POST" → resolve_path ev = "create-invoice" →
  Event.body ev = Some b → nullish b = false →
  start cfg rt e st ev =
    match find_player (get b "playerId") (players st) with
    | None => Done (respond rt 404 (JObj [("error", JStr "Card not found")])) st
    | Some player =>
        if Player.sold player then
          Done (respond rt 400 (JObj [("error", JStr "Card already sold")])) st
        else
          match configured (NOWPAYMENTS_API_KEY cfg) with
          | None => Done (respond rt 500 (JObj [("error", JStr missing_key_message)])) st
          | Some key =>
              let orderId := make_orderId (Date_now e) player in
              Await {| Fetch.url := NOWPAYMENTS_BASE cfg +:+ "/invoice";
                       Fetch.method := "POST";
                       Fetch.api_key := key;
                       Fetch.body := Some (JSON_stringify rt (JObj [
                         ("price_amount", num (Player.price player));
                         ("price_currency", JStr "sar");
                         ("order_id", JStr orderId);
                         ("order_description", JStr (order_description player));
                         ("ipn_callback_url", JStr (origin ev +:+ "/api/ipn"));
                         ("success_url",
                          JStr (origin ev +:+ "/?payment=success&order=" +:+ orderId));
                         ("cancel_url", JStr (origin ev +:+ "/?payment=cancelled"))])) |}
                    (KInvoice orderId player (get b "redeemOption") (get b "customer"))
          end
    end.
Proof.
  intros Hm Hp Hb Hn. rewrite (start_create_invoice cfg rt e st ev Hm Hp).
  unfold create_invoice, parse_body, destructure, nowpaymentsRequest_call, to_strings.
  rewrite Hb. simpl. rewrite Hn. simpl.
  repeat case_match; simplify_eq/=; try done.
Qed.

End Validation.

(** X8.  A create-payment request with a JSON body is checked in this
    order, each failure answered at once with the stores untouched and no
    gateway call: an id that is not the number of a catalogue item (a
    numeric string included) gives 404 "Card not found"; then, for an unsold
    item, a missing or empty currency gives 400 "Currency is required", and a
    missing customer or customer email gives 400 "Customer email is
    required".  A request that passes, with the credential configured, calls
    the gateway for the catalogue price of the item in SAR, whatever else the
    body holds, and waits with the order id made from the clock and the
    item. *)
Theorem create_payment_validation cfg rt e st ev b :
  Event.httpMethod ev = "POST" → resolve_path ev = "create-payment" →
  Event.body ev = Some b → nullish b = false →
  (find_player (get b "playerId") (players st) = None →
   start cfg rt e st ev = Done (respond rt 404 (JObj [("error", JStr "Card not found")])) st)
  ∧ (∀ s, get b "playerId" = JStr s →
     start cfg rt e st ev = Done (respond rt 404 (JObj [("error", JStr "Card not found")])) st)
  ∧ (∀ p, find_player (get b "playerId") (players st) = Some p → Player.sold p = false →
     (truthy (get b "currency") = false →
      start cfg rt e st ev
        = Done (respond rt 400 (JObj [("error", JStr "Currency is required")])) st)
     ∧ (truthy (get b "currency") = true →
        truthy (get b "customer") = false ∨ truthy (get (get b "customer") "email") = false →
        start cfg rt e st ev
          = Done (respond rt 400 (JObj [("error", JStr "Customer email is required")])) st)
     ∧ (∀ key,
          truthy (get b "currency") = true → truthy (get b "customer") = true →
          truthy (get (get b "customer") "email") = true →
          configured (NOWPAYMENTS_API_KEY cfg) = Some key →
          start cfg rt e st ev =
            Await {| Fetch.url := NOWPAYMENTS_BASE cfg +:+ "/payment";
                     Fetch.method := "POST";
                     Fetch.api_key := key;
                     Fetch.body := Some (JSON_stringify rt (JObj [
                       ("price_amount", num (Player.price p));
                       ("price_currency", JStr "sar");
                       ("pay_currency", get b "currency");
                       ("order_id",
                        JStr ("NASSR-" +:+ pretty (Date_now e) +:+ "-" +:+ pretty (Player.id p)));
                       ("order_description",
                        JStr ("Al-Nassr VIP Card: " +:+ Player.nameEn p +:+ " (PSA 10)"));
                       ("ipn_callback_url", JStr (origin ev +:+ "/api/ipn"))])) |}
                  (KPayment
                     ("NASSR-" +:+ pretty (Date_now e) +:+ "-" +:+ pretty (Player.id p)) p
                     (get b "currency") (get b "redeemOption") (get b "customer")))).
Proof.
  intros Hm Hp Hb Hn. rewrite (create_payment_checked cfg rt e st ev b Hm Hp Hb Hn).
  split; [by intros ->|]. split.
  - intros s Hs. destruct (find_player (get b "playerId") (players st)) as [p|] eqn:Hf;
      [|done]. apply find_player_number in Hf as [q Hq]. congruence.
  - intros p -> ->. split; [by intros ->|]. split.
    + intros -> [-> | ->]; simpl; [done|]. by rewrite orb_true_r.
    + by intros key -> -> -> ->.
Qed.

Lemma create_payment_validation_witness :
  start Scenario.cfg Reference.runtime (Cases.at_ 1700000000000) initial_state
    (Reference.request "POST" "/api/create-payment" []
       (JObj [("playerId", JStr "1"); ("currency", JStr "btc")]))
  = Done (respond Reference.runtime 404 (JObj [("error", JStr "Card not found")]))
         initial_state
  ∧ start Scenario.cfg Reference.runtime (Cases.at_ 1700000000000) initial_state
      (Reference.request "POST" "/api/create-payment" []
         (JObj [("playerId", num 2); ("currency", JStr "btc"); ("customer", JObj [])]))
    = Done (respond Reference.runtime 400 (JObj [("error", JStr "Customer email is required")]))
           initial_state.
Proof.
  split.
  - refine (proj1 (proj2 (create_payment_validation Scenario.cfg Reference.runtime
              (Cases.at_ 1700000000000) initial_state
              (Reference.request "POST" "/api/create-payment" []
                 (JObj [("playerId", JStr "1"); ("currency", JStr "btc")])) _
              eq_refl eq_refl eq_refl eq_refl)) "1" eq_refl).
  - refine (proj1 (proj2 (proj2 (proj2 (create_payment_validation Scenario.cfg
              Reference.runtime (Cases.at_ 1700000000000) initial_state
              (Reference.request "POST" "/api/create-payment" []
                 (JObj [("playerId", num 2); ("currency", JStr "btc"); ("customer", JObj [])]))
              _ eq_refl eq_refl eq_refl eq_refl)) _ _ _)) eq_refl (or_intror eq_refl)).
    + vm_compute. reflexivity.
    + reflexivity.
Defined.

(** X9.  A create-invoice request with a JSON body is refused with 404 for
    an unknown item and with 400 for a sold one, the stores untouched and the
    gateway not called.  For an unsold item nothing else is required: with
    the credential configured the gateway is asked for an invoice at the
    catalogue price in SAR, with return links that carry the new order id,
    even when the body names no customer and no currency. *)
Theorem create_invoice_validation cfg rt e st ev b :
  Event.httpMethod ev = "POST" → resolve_path ev = "create-invoice" →
  Event.body ev = Some b → nullish b = false →
  (find_player (get b "playerId") (players st) = None →
   start cfg rt e st ev = Done (respond rt 404 (JObj [("error", JStr "Card not found")])) st)
  ∧ (∀ p, find_player (get b "playerId") (players st) = Some p → Player.sold p = true →
     start cfg rt e st ev
       = Done (respond rt 400 (JObj [("error", JStr "Card already sold")])) st)
  ∧ (∀ p key, find_player (get b "playerId") (players st) = Some p →
     Player.sold p = false → configured (NOWPAYMENTS_API_KEY cfg) = Some key →
     let orderId := "NASSR-" +:+ pretty (Date_now e) +:+ "-" +:+ pretty (Player.id p) in
     start cfg rt e st ev =
       Await {| Fetch.url := NOWPAYMENTS_BASE cfg +:+ "/invoice";
                Fetch.method := "POST";
                Fetch.api_key := key;
                Fetch.body := Some (JSON_stringify rt (JObj [
                  ("price_amount", num (Player.price p));
                  ("price_currency", JStr "sar");
                  ("order_id", JStr orderId);
                  ("order_description",
                   JStr ("Al-Nassr VIP Card: " +:+ Player.nameEn p +:+ " (PSA 10)"));
                  ("ipn_callback_url", JStr (origin ev +:+ "/api/ipn"));
                  ("success_url",
                   JStr (origin ev +:+ "/?payment=success&order=" +:+ orderId));
                  ("cancel_url", JStr (origin ev +:+ "/?payment=cancelled"))])) |}
             (KInvoice orderId p (get b "redeemOption") (get b "customer"))).
Proof.
  intros Hm Hp Hb Hn. rewrite (create_invoice_checked cfg rt e st ev b Hm Hp Hb Hn).
  split; [by intros ->|]. split; [by intros p -> ->|]. by intros p key -> -> ->.
Qed.

Lemma create_invoice_validation_witness :
  ∃ req,
    start Scenario.cfg Reference.runtime (Cases.at_ 1700000000000) initial_state
      (Reference.request "POST" "/api/create-invoice" [] (JObj [("playerId", num 6)]))
    = Await req (KInvoice "NASSR-1700000000000-6" Cases.item6 JUndef JUndef).
Proof.
  eexists.
  refine (proj2 (proj2 (create_invoice_validation Scenario.cfg Reference.runtime
            (Cases.at_ 1700000000000) initial_state
            (Reference.request "POST" "/api/create-invoice" [] (JObj [("playerId", num 6)]))
            _ eq_refl eq_refl eq_refl eq_refl)) Cases.item6 "key" _ eq_refl eq_refl).
  vm_compute. reflexivity.
Defined.

(** ** Malformed requests *)

Section Malformed.
Context (cfg : config) (rt : Runtime).




End Malformed.



(** ** Reading orders back *)

Section OrderReads.
Context (cfg : config) (rt : Runtime).

Lemma start_get_order e st ev oid :
  Event.httpMethod ev = "GET" → resolve_path ev = "order/" +:+ oid →
  start cfg rt e st ev =
    Done (match orders st !! oid with
          | None => respond rt 404 (JObj [("error", JStr "Order not found")])
          | Some order => respond rt 200 (Order.to_js order)
          end) st.
Proof.
  intros Hm Hp. unfold start, route, is_route. rewrite Hm, Hp. simpl.
  unfold get_order. by rewrite (replace_prefix "o" "rder/" oid).
Qed.

Lemma resume_creation_stores k oid p status data e st :
  pending_order k = Some (oid, p) → Fetch.ok status = true → nullish data = false →
  ∃ r o,
    resume rt k (Fetch.Json status data) e st
      = (r, with_orders (<[oid := o]> (orders st)) st) ∧
    Response.statusCode r = (if creation_log_throws k data then 500 else 200)%Z ∧
    Order.orderId o = oid ∧ Order.playerId o = Player.id p ∧
    Order.playerName o = Player.nameEn p ∧ Order.priceAmount o = Player.price p ∧
    Order.createdAt o = toISOString rt (new_Date e) ∧ Order.actuallyPaid o = None ∧
    Order.status o = match k with
                     | KPayment _ _ _ _ _ => get data "payment_status"
                     | _ => JStr "waiting"
                     end.
Proof.
  intros Hk Hok Hn.
  destruct k; simplify_eq/=; unfold resume; simpl; rewrite Hok; simpl;
    unfold finish_payment, finish_invoice, to_strings; rewrite Hn; simpl;
    try destruct (_ || _); simpl; eexists _, _;
    (split; [reflexivity|]); simpl; done.
Qed.

End OrderReads.

(** X11.  GET [order/<id>] reads back what was written.  For an id with no
    order it answers 404.  Once the gateway's 2xx answer to a creation has
    been handled, the new order can be fetched under its id: it has the
    item's id, English name and catalogue price, no [actuallyPaid] yet, and
    as status the gateway's [payment_status] for a payment and ["waiting"]
    for an invoice.  After a webhook has updated a stored order, the fetch
    shows the delivered status and amount.  The fetch changes nothing. *)
Theorem order_reads_back cfg rt e' ev oid :
  Event.httpMethod ev = "GET" → resolve_path ev = "order/" +:+ oid →
  (∀ st, orders st !! oid = None →
     start cfg rt e' st ev
       = Done (respond rt 404 (JObj [("error", JStr "Order not found")])) st)
  ∧ (∀ k p status data e st,
       pending_order k = Some (oid, p) → Fetch.ok status = true → nullish data = false →
       let st' := (resume rt k (Fetch.Json status data) e st).2 in
       ∃ o, start cfg rt e' st' ev = Done (respond rt 200 (Order.to_js o)) st' ∧
            Order.orderId o = oid ∧ Order.playerId o = Player.id p ∧
            Order.playerName o = Player.nameEn p ∧
            Order.priceAmount o = Player.price p ∧ Order.actuallyPaid o = None ∧
            Order.status o = match k with
                             | KPayment _ _ _ _ _ => get data "payment_status"
                             | _ => JStr "waiting"
                             end)
  ∧ (∀ st o payment_status actually_paid,
       orders st !! oid = Some o →
       let st' := ipn_update (JStr oid) payment_status actually_paid st in
       start cfg rt e' st' ev
         = Done (respond rt 200
                   (Order.to_js (Order.set_status_paid payment_status actually_paid o))) st').
Proof.
  intros Hm Hp. split; [|split].
  - intros st Ho. by rewrite (start_get_order cfg rt e' st ev oid Hm Hp), Ho.
  - intros k p status data e st Hk Hok Hn.
    destruct (resume_creation_stores rt k oid p status data e st Hk Hok Hn)
      as (r & o & Hres & _ & Hoid & Hpid & Hname & Hprice & _ & Hpaid & Hstatus).
    rewrite Hres. simpl. exists o.
    rewrite (start_get_order cfg rt e' _ ev oid Hm Hp). simpl.
    by rewrite lookup_insert_eq.
  - intros st o ps ap Ho. cbv zeta.
    rewrite (start_get_order cfg rt e' _ ev oid Hm Hp).
    rewrite (ipn_update_known _ _ _ _ _ Ho). simpl. by rewrite lookup_insert_eq.
Qed.

Lemma order_reads_back_witness :
  start Scenario.cfg Reference.runtime (Cases.at_ 1700000003000)
    (ipn_update (JStr Scenario.orderId) (JStr "partially_paid") (num 1)
       (store Scenario.invoiced))
    (Cases.get "/api/order/NASSR-1700000000000-1")
  = Done (respond Reference.runtime 200 (JObj [
            ("orderId", JStr "NASSR-1700000000000-1"); ("playerId", num 1);
            ("playerName", JStr "Cristiano Ronaldo"); ("priceAmount", num 189999);
            ("invoiceId", JStr "4522625843");
            ("invoiceUrl", JStr "https://nowpayments.io/payment/?iid=4522625843");
            ("status", JStr "partially_paid"); ("redeemOption", JUndef);
            ("customer", JObj [("email", JStr "fan@example.com")]);
            ("createdAt", JStr "1700000000500"); ("actuallyPaid", num 1)]))
         (ipn_update (JStr Scenario.orderId) (JStr "partially_paid") (num 1)
            (store Scenario.invoiced)).
Proof.
  assert (∃ o, orders (store Scenario.invoiced) !! "NASSR-1700000000000-1" = Some o ∧
    Order.to_js (Order.set_status_paid (JStr "partially_paid") (num 1) o) = JObj [
            ("orderId", JStr "NASSR-1700000000000-1"); ("playerId", num 1);
            ("playerName", JStr "Cristiano Ronaldo"); ("priceAmount", num 189999);
            ("invoiceId", JStr "4522625843");
            ("invoiceUrl", JStr "https://nowpayments.io/payment/?iid=4522625843");
            ("status", JStr "partially_paid"); ("redeemOption", JUndef);
            ("customer", JObj [("email", JStr "fan@example.com")]);
            ("createdAt", JStr "1700000000500"); ("actuallyPaid", num 1)])
    as (o & Ho & <-) by (eexists; split; vm_compute; reflexivity).
  exact (proj2 (proj2 (order_reads_back Scenario.cfg Reference.runtime
           (Cases.at_ 1700000003000) (Cases.get "/api/order/NASSR-1700000000000-1")
           "NASSR-1700000000000-1" eq_refl eq_refl))
           (store Scenario.invoiced) o (JStr "partially_paid") (num 1) Ho).
Defined.

(** ** Which requests write which store *)

Section Writers.
Context (cfg : config) (rt : Runtime).

Lemma is_route_eq ev method (p q : string) :
  is_route ev method (bool_decide (p = q)) = true →
  Event.httpMethod ev = method ∧ p = q.
Proof.
  unfold is_route. intros [?%bool_decide_eq_true ?%bool_decide_eq_true]%andb_true_iff.
  done.
Qed.

Lemma ipn_changes_inv st ev r st' :
  ipn cfg rt st ev = Ok (Done r st') →
  st' = st ∨
  (Response.statusCode r = 200%Z ∧
   ∃ payload, Event.body ev = Some payload ∧ nullish payload = false ∧
     ipn_verify cfg rt ev payload = Ok true ∧
     st' = ipn_update (get payload "order_id") (get payload "payment_status")
                      (get payload "actually_paid") st).
Proof.
  unfold ipn, parse_body, destructure, to_strings. intros H.
  destruct (Event.body ev) as [payload|]; [|done]. simpl in H.
  destruct (ipn_verify cfg rt ev payload) as [[]|] eqn:Hv; simpl in H;
    [|simplify_eq; by left..].
  destruct (nullish payload) eqn:Hn; simpl in H; [simplify_eq|].
  destruct (_ || _); simpl in H; simplify_eq. right. eauto 10.
Qed.

Lemma redeem_changes_inv e st ev r st' :
  redeem rt e st ev = Ok (Done r st') →
  st' = st ∨
  ((Response.statusCode r = 200%Z ∨ Response.statusCode r = 500%Z) ∧
   ∃ b s c,
     Event.body ev = Some b ∧ get b "code" = JStr s ∧ s ≠ "" ∧
     truthy (get b "lightningAddress") = true ∧
     redeemCodes st !! normalize rt s = Some c ∧ Code.redeemed c = false ∧
     st' = with_redeemCodes
             (<[normalize rt s :=
                  Code.redeem (toISOString rt (new_Date e)) (get b "lightningAddress")
                    (make_txId rt e) (or_else (get b "email") JNull) c]>
                (redeemCodes st)) st).
Proof.
  unfold redeem, parse_body, destructure, to_strings. intros H.
  destruct (Event.body ev) as [b|]; [|done]. simpl in H.
  destruct (nullish b); simpl in H; [done|].
  destruct (truthy (get b "code")) eqn:Hcode; simpl in H; [|simplify_eq; by left].
  destruct (truthy (get b "lightningAddress")) eqn:Haddr; simpl in H;
    [|simplify_eq; by left].
  destruct (get b "code") as [| | | |s| |] eqn:Hc; try done.
  destruct (redeemCodes st !! normalize rt s) as [c|] eqn:Hlook; [|simplify_eq; by left].
  destruct (Code.redeemed c) eqn:Hred; [simplify_eq; by left|].
  right. split.
  - destruct (_ || _); simplify_eq; simpl; auto.
  - exists b, s, c.
    assert (s ≠ "") by (intros ->; done).
    destruct (_ || _); simplify_eq; done.
Qed.

Lemma create_payment_keeps e st ev r st' :
  create_payment cfg rt e st ev = Ok (Done r st') → st' = st.
Proof.
  unfold create_payment, nowpaymentsRequest_call, parse_body, destructure, to_strings.
  intros H. by repeat (simplify_eq/=; try case_match).
Qed.

Lemma create_invoice_keeps e st ev r st' :
  create_invoice cfg rt e st ev = Ok (Done r st') → st' = st.
Proof.
  unfold create_invoice, nowpaymentsRequest_call, parse_body, destructure, to_strings.
  intros H. by repeat (simplify_eq/=; try case_match).
Qed.

(** The only requests that change a store when they are answered: an
    accepted webhook, and a redemption, whose answer is 200, or 500 when its
    log line throws. *)
Lemma start_changes_inv e st ev r st' :
  start cfg rt e st ev = Done r st' →
  st' = st ∨
  (Event.httpMethod ev = "POST" ∧
   (Response.statusCode r = 200%Z ∨ Response.statusCode r = 500%Z) ∧
   (((resolve_path ev = "ipn" ∧ Response.statusCode r = 200%Z) ∧
     ∃ payload, Event.body ev = Some payload ∧ nullish payload = false ∧
       ipn_verify cfg rt ev payload = Ok true ∧
       st' = ipn_update (get payload "order_id") (get payload "payment_status")
                        (get payload "actually_paid") st)
    ∨ (resolve_path ev = "redeem" ∧
       ∃ b s c,
         Event.body ev = Some b ∧ get b "code" = JStr s ∧ s ≠ "" ∧
         truthy (get b "lightningAddress") = true ∧
         redeemCodes st !! normalize rt s = Some c ∧ Code.redeemed c = false ∧
         st' = with_redeemCodes
                 (<[normalize rt s :=
                      Code.redeem (toISOString rt (new_Date e)) (get b "lightningAddress")
                        (make_txId rt e) (or_else (get b "email") JNull) c]>
                    (redeemCodes st)) st))).
Proof.
  unfold start. case_bool_decide; [intros [= _ <-]; by left|].
  destruct (route cfg rt e st ev) as [o|m] eqn:Hr; simpl; [|intros [= _ <-]; by left].
  intros ->. unfold route in Hr.
  repeat match type of Hr with
         | (if ?b then _ else _) = _ => destruct b eqn:?
         end;
    try (simplify_eq; by left);
    try (by apply relay_awaits in Hr as [? [=]]);
    try (repeat case_match; simplify_eq; by left).
  - left. by apply create_payment_keeps in Hr.
  - left. by apply create_invoice_keeps in Hr.
  - match goal with H : is_route _ _ _ = true |- _ => apply is_route_eq in H as [? ?] end.
    destruct (ipn_changes_inv st ev r st' Hr) as [?|(? & ?)]; [by left|].
    right. split; [done|]. split; [by left|]. left. by split.
  - match goal with H : is_route _ _ _ = true |- _ => apply is_route_eq in H as [? ?] end.
    destruct (redeem_changes_inv e st ev r st' Hr) as [?|(? & ?)]; [by left|].
    right. split; [done|]. split; [done|]. right. by split.
Qed.

Lemma resume_changes_cases k fo e st r st' :
  resume rt k fo e st = (r, st') →
  st' = st ∨
  ∃ oid p status data o,
    pending_order k = Some (oid, p) ∧ fo = Fetch.Json status data ∧
    Fetch.ok status = true ∧ nullish data = false ∧
    (Response.statusCode r = 200%Z ∨ Response.statusCode r = 500%Z) ∧
    Order.orderId o = oid ∧ Order.playerId o = Player.id p ∧
    st' = with_orders (<[oid := o]> (orders st)) st.
Proof.
  unfold resume, resume_route, finish_payment, finish_invoice, finish_payment_status,
    nowpaymentsRequest_return, to_strings.
  intros H. destruct fo as [msg|status|status data], k;
    repeat (simplify_eq/=; try case_match); try (by left).
  all: right; eexists _, _, _, _, _; repeat split; eauto.
Qed.

End Writers.

Lemma ipn_update_dom order_id ps ap st :
  dom (orders (ipn_update order_id ps ap st)) = dom (orders st).
Proof.
  unfold ipn_update. destruct order_id as [| | | |oid| |]; try done.
  destruct (orders st !! oid) as [o|] eqn:Ho; [|done].
  assert (oid ∈ dom (orders st)) by (apply elem_of_dom; eauto).
  destruct (terminal_success ps); simpl; rewrite dom_insert_L; set_solver.
Qed.

Lemma ipn_update_orders_frame order_id ps ap st oid :
  order_id ≠ JStr oid →
  orders (ipn_update order_id ps ap st) !! oid = orders st !! oid.
Proof.
  intros Hne. unfold ipn_update. destruct order_id as [| | | |oid'| |]; try done.
  destruct (orders st !! oid') eqn:Ho; [|done].
  assert (oid' ≠ oid) by congruence.
  destruct (terminal_success ps); simpl; by rewrite lookup_insert_ne.
Qed.

(** X12.  Each store has its own writers.  Answering a request changes a
    store only when the request is an accepted webhook, answered 200, which
    then leaves the redeem codes and the set of order ids alone and can only
    add to what is sold, or a redemption, answered 200 or, when its log line
    throws, 500, which leaves orders and catalogue alone and keeps the set
    of codes.  The gateway's answer to a waiting request never touches
    catalogue or redeem codes; it stores one order when it completes a
    creation, answering 200 or, when the log line throws, 500, and nothing
    otherwise. *)
Theorem stores_have_their_writers cfg rt :
  (∀ e st ev r st',
     start cfg rt e st ev = Done r st' →
     st' = st ∨
     (Event.httpMethod ev = "POST" ∧ resolve_path ev = "ipn" ∧
      Response.statusCode r = 200%Z ∧
      redeemCodes st' = redeemCodes st ∧ dom (orders st') = dom (orders st) ∧
      sold_monotone (players st) (players st'))
     ∨ (Event.httpMethod ev = "POST" ∧ resolve_path ev = "redeem" ∧
        (Response.statusCode r = 200%Z ∨ Response.statusCode r = 500%Z) ∧
        orders st' = orders st ∧ players st' = players st ∧
        dom (redeemCodes st') = dom (redeemCodes st)))
  ∧ (∀ k fo e st r st',
       resume rt k fo e st = (r, st') →
       players st' = players st ∧ redeemCodes st' = redeemCodes st ∧
       (orders st' = orders st ∨
        ∃ oid p o, pending_order k = Some (oid, p) ∧
                   (Response.statusCode r = 200%Z ∨ Response.statusCode r = 500%Z) ∧
                   orders st' = <[oid := o]> (orders st))).
Proof.
  split.
  - intros e st ev r st' Hs.
    destruct (start_changes_inv cfg rt e st ev r st' Hs)
      as [->|(Hm & Hr & [([Hp H200] & payload & _ & _ & _ & ->)
                        |(Hp & b & s & c & _ & _ & _ & _ & Hc & _ & ->)])];
      [by left|right; left|right; right].
    + repeat split; try done.
      * apply ipn_update_redeemCodes.
      * apply ipn_update_dom.
      * apply ipn_update_sold.
    + repeat split; try done. simpl. rewrite dom_insert_L.
      assert (normalize rt s ∈ dom (redeemCodes st)) by (apply elem_of_dom; eauto).
      set_solver.
  - intros k fo e st r st' Hres.
    destruct (resume_changes_cases rt k fo e st r st' Hres)
      as [->|(oid & p & status & data & o & Hk & _ & _ & _ & Hr & _ & _ & ->)];
      [by auto|].
    repeat split; try done. right. eauto 10.
Qed.

Lemma stores_have_their_writers_witness :
  ∃ r st',
    start Scenario.cfg Reference.runtime (Cases.at_ 1700000001000)
      (store Scenario.invoiced) (Scenario.webhook "finished") = Done r st' ∧
    (st' = store Scenario.invoiced ∨
     redeemCodes st' = redeemCodes (store Scenario.invoiced) ∧
     dom (orders st') = dom (orders (store Scenario.invoiced))) ∧
    Player.sold <$> players st' = [true; false; true; false; true; false].
Proof.
  assert (∃ r st',
    start Scenario.cfg Reference.runtime (Cases.at_ 1700000001000)
      (store Scenario.invoiced) (Scenario.webhook "finished") = Done r st' ∧
    Player.sold <$> players st' = [true; false; true; false; true; false])
    as (r & st' & Hs & Hsold) by (eexists _, _; split; vm_compute; reflexivity).
  exists r, st'. split; [exact Hs|]. split; [|exact Hsold].
  destruct (proj1 (stores_have_their_writers Scenario.cfg Reference.runtime) _ _ _ _ _ Hs)
    as [->|[(_ & _ & _ & Hcodes & Hdom & _)|(_ & Hpath & _)]].
  - by left.
  - by right.
  - discriminate Hpath.
Defined.

(** ** What no run changes *)

Lemma same_order_refl o : same_order o o.
Proof. by repeat split. Qed.

Lemma same_order_trans o1 o2 o3 : same_order o1 o2 → same_order o2 o3 → same_order o1 o3.
Proof. unfold same_order. intros ? ?. intuition congruence. Qed.

Lemma same_item_refl p : same_item p p.
Proof. by repeat split. Qed.

Lemma same_code_refl c : same_code c c.
Proof. by repeat split. Qed.

Lemma same_items_refl ps : Forall2 same_item ps ps.
Proof. induction ps; constructor; auto using same_item_refl. Qed.

Lemma same_items_trans ps1 ps2 ps3 :
  Forall2 same_item ps1 ps2 → Forall2 same_item ps2 ps3 → Forall2 same_item ps1 ps3.
Proof.
  apply Forall2_trans. unfold same_item. intros ? ? ? ? ?. intuition congruence.
Qed.

Lemma mark_sold_same_item pid ps : Forall2 same_item ps (mark_sold pid ps).
Proof.
  induction ps as [|p ps IH]; [constructor|]. simpl. case_bool_decide.
  - constructor; [by repeat split|apply same_items_refl].
  - constructor; [apply same_item_refl|done].
Qed.

Lemma ipn_update_same_item order_id ps ap st :
  Forall2 same_item (players st) (players (ipn_update order_id ps ap st)).
Proof.
  unfold ipn_update.
  repeat case_match; simpl; auto using same_items_refl, mark_sold_same_item.
Qed.

Lemma ipn_update_same_order order_id ps ap st oid o :
  orders st !! oid = Some o →
  ∃ o', orders (ipn_update order_id ps ap st) !! oid = Some o' ∧ same_order o o'.
Proof.
  intros Ho. unfold ipn_update.
  destruct order_id as [| | | |oid'| |]; eauto using same_order_refl.
  destruct (orders st !! oid') as [o1|] eqn:Ho1; eauto using same_order_refl.
  destruct (decide (oid' = oid)) as [->|Hne].
  - assert (o1 = o) as -> by congruence.
    exists (Order.set_status_paid ps ap o).
    split; [|by repeat split].
    destruct (terminal_success ps); simpl; by rewrite lookup_insert_eq.
  - exists o. split; [|apply same_order_refl].
    destruct (terminal_success ps); simpl; by rewrite lookup_insert_ne.
Qed.

Section Frames.
Context (cfg : config) (rt : Runtime).

Lemma step_keeps_order s l s' oid o :
  step cfg rt s l s' → orders (store s) !! oid = Some o →
  (∃ o', orders (store s') !! oid = Some o') ∧
  (¬ refiles oid l → ∃ o', orders (store s') !! oid = Some o' ∧ same_order o o').
Proof.
  destruct 1 as [st fl ev e r st' Hs | st fl ev e req k Hs | st fl1 k fl2 fo e r st' Hs];
    simpl; intros Ho.
  - assert (∃ o', orders st' !! oid = Some o' ∧ same_order o o') as (o' & ? & ?);
      [|by eauto].
    destruct (start_changes_inv cfg rt e st ev r st' Hs)
      as [->|(_ & _ & [(_ & payload & _ & _ & _ & ->)
                      |(_ & b & s & c & _ & _ & _ & _ & _ & _ & ->)])];
      eauto using same_order_refl, ipn_update_same_order.
  - eauto using same_order_refl.
  - destruct (resume_changes_cases rt k fo e st r st' Hs)
      as [->|(oid' & p & status & data & o1 & Hk & _ & _ & _ & _ & _ & _ & ->)];
      [by eauto using same_order_refl|].
    simpl. destruct (decide (oid' = oid)) as [->|Hne].
    + rewrite lookup_insert_eq. split; [by eauto|]. intros []. eauto.
    + rewrite lookup_insert_ne by done. eauto using same_order_refl.
Qed.

Lemma step_same_item s l s' :
  step cfg rt s l s' → Forall2 same_item (players (store s)) (players (store s')).
Proof.
  destruct 1 as [st fl ev e r st' Hs | st fl ev e req k Hs | st fl1 k fl2 fo e r st' Hs];
    simpl; auto using same_items_refl.
  - destruct (start_changes_inv cfg rt e st ev r st' Hs)
      as [->|(_ & _ & [(_ & payload & _ & _ & _ & ->)
                      |(_ & b & s & c & _ & _ & _ & _ & _ & _ & ->)])];
      simpl; auto using same_items_refl, ipn_update_same_item.
  - destruct (resume_changes_cases rt k fo e st r st' Hs)
      as [->|(oid' & p & status & data & o1 & _ & _ & _ & _ & _ & _ & _ & ->)];
      simpl; auto using same_items_refl.
Qed.

Lemma step_same_code s l s' k :
  step cfg rt s l s' →
  option_Forall2 same_code (redeemCodes (store s) !! k) (redeemCodes (store s') !! k).
Proof.
  assert (∀ m : gmap string Code.t, option_Forall2 same_code (m !! k) (m !! k)) as Hrefl.
  { intros m. destruct (m !! k); constructor. apply same_code_refl. }
  destruct 1 as [st fl ev e r st' Hs | st fl ev e req k' Hs | st fl1 k' fl2 fo e r st' Hs];
    simpl; auto.
  - destruct (start_changes_inv cfg rt e st ev r st' Hs)
      as [->|(_ & _ & [(_ & payload & _ & _ & _ & ->)
                      |(_ & b & s & c & _ & _ & _ & _ & Hc & _ & ->)])]; auto.
    + rewrite ipn_update_redeemCodes. auto.
    + simpl. destruct (decide (normalize rt s = k)) as [<-|Hne].
      * rewrite lookup_insert_eq, Hc. constructor. by repeat split.
      * rewrite lookup_insert_ne by done. auto.
  - destruct (resume_changes_cases rt k' fo e st r st' Hs)
      as [->|(oid' & p & status & data & o1 & _ & _ & _ & _ & _ & _ & _ & ->)];
      simpl; auto.
Qed.

End Frames.

(** X13.  An order is never deleted: once filed, its id stays filed along
    every run.  Unless a later creation completes under the same id, the
    order at that id keeps every field except the two a webhook writes,
    status and actuallyPaid. *)
Theorem orders_are_never_deleted cfg rt s tr s' oid o :
  run cfg rt s tr s' →
  orders (store s) !! oid = Some o →
  (∃ o', orders (store s') !! oid = Some o') ∧
  (Forall (λ l, ¬ refiles oid l) tr →
   ∃ o', orders (store s') !! oid = Some o' ∧ same_order o o').
Proof.
  intros Hrun. revert o.
  induction Hrun as [s|s l s1 tr s2 Hstep Hrun IH]; intros o Ho.
  - eauto using same_order_refl.
  - destruct (step_keeps_order cfg rt s l s1 oid o Hstep Ho) as [(o1 & Ho1) Hsame].
    split; [by apply (IH o1)|].
    intros Hno. inversion Hno as [|? ? Hl Htr]; subst.
    destruct (Hsame Hl) as (o1' & Ho1' & Hso).
    destruct (IH o1' Ho1') as [_ Hrest].
    destruct (Hrest Htr) as (o2 & Ho2 & Hso2).
    eauto using same_order_trans.
Qed.

Lemma orders_are_never_deleted_witness :
  ∃ s' o',
    orders (store s') !! Scenario.orderId = Some o' ∧
    Order.status o' = JStr "expired" ∧ Order.createdAt o' = "1700000000500".
Proof.
  assert (∃ r st',
    start Scenario.cfg Reference.runtime (Cases.at_ 1700000001000)
      (store Scenario.invoiced) (Scenario.webhook "expired") = Done r st' ∧
    ∃ o', orders st' !! Scenario.orderId = Some o' ∧ Order.status o' = JStr "expired")
    as (r & st' & Hs & o1 & Ho1 & Hst)
    by (eexists _, _; split; [vm_compute; reflexivity|];
        eexists; split; vm_compute; reflexivity).
  assert (∃ o, orders (store Scenario.invoiced) !! Scenario.orderId = Some o ∧
               Order.createdAt o = "1700000000500") as (o & Ho & Hat)
    by (eexists; split; vm_compute; reflexivity).
  pose proof (orders_are_never_deleted Scenario.cfg Reference.runtime
    Scenario.invoiced
    [Answered (Scenario.webhook "expired") (Cases.at_ 1700000001000) r]
    {| store := st'; inflight := [] |} Scenario.orderId o) as H.
  destruct H as [_ H].
  - eapply run_cons; [|apply run_nil].
    change Scenario.invoiced with
      {| store := store Scenario.invoiced; inflight := [] |}.
    by apply step_answer.
  - exact Ho.
  - destruct H as (o' & Ho' & Hsame).
    + repeat constructor. simpl. tauto.
    + exists {| store := st'; inflight := [] |}, o'. split; [exact Ho'|].
      split.
      * simpl in Ho'. congruence.
      * destruct Hsame as (_ & _ & _ & _ & _ & _ & _ & ->). exact Hat.
Defined.

(** X14.  What the handlers never write stays as it was along every run:
    each catalogue entry keeps its id, names, price and reference amount, in
    the same position, and each redeem code keeps its item and its satoshi
    amount; no code is added or removed. *)
Theorem fixed_data_is_never_written cfg rt s tr s' :
  run cfg rt s tr s' →
  Forall2 same_item (players (store s)) (players (store s')) ∧
  ∀ k, option_Forall2 same_code (redeemCodes (store s) !! k) (redeemCodes (store s') !! k).
Proof.
  induction 1 as [s|s l s1 tr s2 Hstep Hrun [IHp IHc]].
  - split; [apply same_items_refl|]. intros k.
    destruct (redeemCodes (store s) !! k); constructor. apply same_code_refl.
  - split.
    + eauto using same_items_trans, step_same_item.
    + intros k. pose proof (step_same_code cfg rt s l s1 k Hstep) as H1.
      specialize (IHc k).
      destruct H1 as [c c1 H1|]; inversion IHc as [? c2 H2|]; subst; constructor.
      destruct H1 as (? & ? & ? & ?), H2 as (? & ? & ? & ?).
      repeat split; congruence.
Qed.

Lemma fixed_data_is_never_written_witness :
  ∃ s' c,
    Forall2 same_item initial_players (players (store s')) ∧
    redeemCodes (store s') !! "NASSR-R7CR-GOLD-2025" = Some c ∧
    Code.redeemed c = true ∧ Code.sats c = 5200000%Z.
Proof.
  assert (∃ r st',
    start Scenario.cfg Reference.runtime (Cases.at_ 1700000001000)
      initial_state (Scenario.redeem_request " nassr-r7cr-gold-2025 ") = Done r st' ∧
    ∃ c, redeemCodes st' !! "NASSR-R7CR-GOLD-2025" = Some c ∧ Code.redeemed c = true)
    as (r & st' & Hs & c & Hc & Hred)
    by (eexists _, _; split; [vm_compute; reflexivity|];
        eexists; split; vm_compute; reflexivity).
  destruct (fixed_data_is_never_written Scenario.cfg Reference.runtime boot
    [Answered (Scenario.redeem_request " nassr-r7cr-gold-2025 ") (Cases.at_ 1700000001000) r]
    {| store := st'; inflight := [] |}) as [Hp Hk].
  - eapply run_cons; [|apply run_nil]. by apply step_answer.
  - exists {| store := st'; inflight := [] |}, c.
    split; [exact Hp|]. split; [exact Hc|]. split; [exact Hred|].
    specialize (Hk "NASSR-R7CR-GOLD-2025"). simpl in Hk. rewrite Hc in Hk.
    inversion Hk as [c0 ? Hsame Hc0|]; subst.
    destruct Hsame as (_ & _ & _ & ->).
    assert (initial_redeemCodes !! "NASSR-R7CR-GOLD-2025" =
            Some (Code.seed 1 "كريستيانو رونالدو" "Cristiano Ronaldo" 5200000))
      as Hseed by (vm_compute; reflexivity).
    change (redeemCodes (store boot)) with initial_redeemCodes in Hc0.
    rewrite Hseed in Hc0. by simplify_eq.
Defined.

(** ** Redeem records of reachable states *)

Lemma seeded_not_redeemed k c : initial_redeemCodes !! k = Some c → Code.redeemed c = false.
Proof.
  intros H%elem_of_list_to_map_2.
  repeat (apply elem_of_cons in H as [H|H]; [by simplify_eq|]).
  by apply elem_of_nil in H.
Qed.

Lemma make_txId_prefix rt e : Str.startsWith (make_txId rt e) "LN-" = true.
Proof. unfold make_txId. apply startsWith_app. Qed.

Lemma or_else_null a : or_else a JNull = JNull ∨ truthy (or_else a JNull) = true.
Proof. unfold or_else. destruct (truthy a) eqn:?; auto. Qed.

Section Settled.
Context (cfg : config) (rt : Runtime).

Lemma step_settled s l s' :
  step cfg rt s l s' → codes_settled (store s) → codes_settled (store s').
Proof.
  destruct 1 as [st fl ev e r st' Hs | st fl ev e req k' Hs | st fl1 k' fl2 fo e r st' Hs];
    simpl; auto.
  - destruct (start_changes_inv cfg rt e st ev r st' Hs)
      as [->|(_ & _ & [(_ & payload & _ & _ & _ & ->)
                      |(_ & b & s & c & _ & _ & _ & Hto & Hc & Hfresh & ->)])]; auto.
    + intros Hst k c. rewrite ipn_update_redeemCodes. apply Hst.
    + intros Hst k c1. simpl. destruct (decide (normalize rt s = k)) as [<-|Hne].
      * rewrite lookup_insert_eq. intros [= <-].
        destruct (Hst _ _ Hc) as (c0 & Hc0 & Hset). exists c0. split; [done|].
        unfold code_settled in *. rewrite Hfresh in Hset. subst c0. simpl.
        eexists _, _, _, _. split; [done|].
        split; [apply (make_txId_prefix rt e)|]. split; [done|]. apply or_else_null.
      * rewrite lookup_insert_ne by done. apply Hst.
  - destruct (resume_changes_cases rt k' fo e st r st' Hs)
      as [->|(oid' & p & status & data & o1 & _ & _ & _ & _ & _ & _ & _ & ->)];
      simpl; auto.
Qed.

Lemma run_settled s tr s' : run cfg rt s tr s' → codes_settled (store s) → codes_settled (store s').
Proof. induction 1; eauto using step_settled. Qed.

End Settled.

(** X15.  In every reachable state a redeem record is either exactly the
    seeded record, or the seeded record with one whole redemption written to
    it: redeemed, the time, a truthy destination, an email that is null or
    truthy, and a transaction id that starts with LN-.  No state in between
    is ever stored. *)
Theorem redeem_records_are_whole cfg rt s k c :
  reachable cfg rt s →
  redeemCodes (store s) !! k = Some c →
  ∃ c0, initial_redeemCodes !! k = Some c0 ∧ code_settled c0 c.
Proof.
  intros [tr Hrun]. revert k c. eapply run_settled; [exact Hrun|].
  intros k c Hc. exists c. split; [exact Hc|].
  unfold code_settled. by rewrite (seeded_not_redeemed k c Hc).
Qed.

Lemma redeem_records_are_whole_witness :
  ∃ s c c0,
    redeemCodes (store s) !! "NASSR-R7CR-GOLD-2025" = Some c ∧
    Code.redeemed c = true ∧
    initial_redeemCodes !! "NASSR-R7CR-GOLD-2025" = Some c0 ∧ code_settled c0 c.
Proof.
  assert (∃ r st',
    start Scenario.cfg Reference.runtime (Cases.at_ 1700000001000)
      initial_state (Scenario.redeem_request "NASSR-R7CR-GOLD-2025") = Done r st' ∧
    ∃ c, redeemCodes st' !! "NASSR-R7CR-GOLD-2025" = Some c ∧ Code.redeemed c = true)
    as (r & st' & Hs & c & Hc & Hred)
    by (eexists _, _; split; [vm_compute; reflexivity|];
        eexists; split; vm_compute; reflexivity).
  destruct (redeem_records_are_whole Scenario.cfg Reference.runtime
    {| store := st'; inflight := [] |} "NASSR-R7CR-GOLD-2025" c) as (c0 & Hc0 & Hset).
  - eexists. eapply run_cons; [|apply run_nil]. by apply step_answer.
  - exact Hc.
  - by exists {| store := st'; inflight := [] |}, c, c0.
Defined.

(** ** Webhook deliveries compose *)

Lemma mark_sold_comm p q ps : mark_sold p (mark_sold q ps) = mark_sold q (mark_sold p ps).
Proof.
  induction ps as [|x ps IH]; [done|]. simpl.
  destruct (bool_decide (Player.id x = q)) eqn:Hq, (bool_decide (Player.id x = p)) eqn:Hp;
    simpl; rewrite ?Hq, ?Hp; simpl; by rewrite ?IH.
Qed.

Lemma ipn_update_idempotent order_id ps ap st :
  ipn_update order_id ps ap (ipn_update order_id ps ap st) = ipn_update order_id ps ap st.
Proof.
  destruct order_id as [| | | |oid| |]; try done.
  destruct (orders st !! oid) as [o|] eqn:Ho.
  - rewrite (ipn_update_known oid o ps ap st Ho).
    erewrite ipn_update_known by (simpl; apply lookup_insert_eq).
    simpl. rewrite insert_insert_eq. f_equal.
    destruct (terminal_success ps); [apply mark_sold_idempotent|done].
  - rewrite !(ipn_update_unknown (JStr oid) ps ap st); try done.
    all: by intros ? [= <-].
Qed.

Lemma ipn_update_comm id1 ps1 ap1 id2 ps2 ap2 st :
  (∀ oid, id1 = JStr oid → id2 ≠ JStr oid) →
  ipn_update id1 ps1 ap1 (ipn_update id2 ps2 ap2 st) =
  ipn_update id2 ps2 ap2 (ipn_update id1 ps1 ap1 st).
Proof.
  intros Hne.
  destruct id1 as [| | | |oid1| |]; try done.
  destruct id2 as [| | | |oid2| |]; try done.
  assert (oid1 ≠ oid2) as Hd by (intros ->; by apply (Hne oid2)).
  destruct (orders st !! oid1) as [o1|] eqn:Ho1; cycle 1.
  { rewrite (ipn_update_unknown (JStr oid1) ps1 ap1 st) by (by intros ? [= <-]).
    apply ipn_update_unknown. intros ? [= <-].
    rewrite ipn_update_orders_frame by congruence. done. }
  destruct (orders st !! oid2) as [o2|] eqn:Ho2; cycle 1.
  { rewrite (ipn_update_unknown (JStr oid2) ps2 ap2 st) by (by intros ? [= <-]).
    symmetry. apply ipn_update_unknown. intros ? [= <-].
    rewrite ipn_update_orders_frame by congruence. done. }
  rewrite (ipn_update_known oid2 o2 ps2 ap2 st Ho2).
  rewrite (ipn_update_known oid1 o1 ps1 ap1 st Ho1).
  erewrite (ipn_update_known oid1 o1) by (simpl; by rewrite lookup_insert_ne).
  erewrite (ipn_update_known oid2 o2) by (simpl; by rewrite lookup_insert_ne).
  simpl. f_equal.
  - by apply insert_insert_ne.
  - destruct (terminal_success ps1), (terminal_success ps2); try done.
    apply mark_sold_comm.
Qed.

Section Deliveries.
Context (cfg : config) (rt : Runtime).

(** The response to a webhook depends on the request alone; the store only
    receives the update. *)
Lemma ipn_cases e st ev :
  Event.httpMethod ev = "POST" → resolve_path ev = "ipn" →
  ∃ r, (start cfg rt e st ev = Done r st ∧
        ∀ e2 st2, start cfg rt e2 st2 ev = Done r st2)
     ∨ (∃ payload, Event.body ev = Some payload ∧
          ∀ e2 st2, start cfg rt e2 st2 ev =
            Done r (ipn_update (get payload "order_id") (get payload "payment_status")
                               (get payload "actually_paid") st2)).
Proof.
  intros Hm Hp.
  assert (∀ e2 st2, start cfg rt e2 st2 ev = caught rt st2 (ipn cfg rt st2 ev)) as Hs
    by (intros; by apply start_ipn).
  unfold ipn, parse_body, destructure in Hs.
  destruct (Event.body ev) as [payload|] eqn:Hb; simpl in Hs; [|by eauto].
  destruct (ipn_verify cfg rt ev payload) as [[]|msg]; simpl in Hs; [|by eauto..].
  destruct (nullish payload); simpl in Hs; [by eauto|].
  destruct (to_strings _ _); simpl in Hs; [|by eauto].
  eexists. right. eauto.
Qed.

End Deliveries.

(** X16.  Delivering a webhook again is harmless: whatever the first
    delivery was answered, accepted or refused or malformed, the same
    request handled right after it gets the same response and changes
    nothing further. *)
Theorem webhook_redelivery_is_idempotent cfg rt e st ev r st' :
  Event.httpMethod ev = "POST" → resolve_path ev = "ipn" →
  start cfg rt e st ev = Done r st' →
  ∀ e2, start cfg rt e2 st' ev = Done r st'.
Proof.
  intros Hm Hp Hs e2.
  destruct (ipn_cases cfg rt e st ev Hm Hp) as (r0 & [[H1 Hall]|(payload & Hb & Hall)]).
  - rewrite H1 in Hs. injection Hs as <- <-. apply Hall.
  - rewrite Hall in Hs. injection Hs as <- <-. rewrite Hall.
    by rewrite ipn_update_idempotent.
Qed.

Lemma webhook_redelivery_is_idempotent_witness :
  ∃ r st',
    start Scenario.cfg Reference.runtime (Cases.at_ 1700000001000)
      (store Scenario.invoiced) (Scenario.webhook "finished") = Done r st' ∧
    st' ≠ store Scenario.invoiced ∧
    start Scenario.cfg Reference.runtime (Cases.at_ 1700000002000)
      st' (Scenario.webhook "finished") = Done r st'.
Proof.
  assert (∃ r st',
    start Scenario.cfg Reference.runtime (Cases.at_ 1700000001000)
      (store Scenario.invoiced) (Scenario.webhook "finished") = Done r st' ∧
    Player.sold <$> players st' ≠ Player.sold <$> players (store Scenario.invoiced))
    as (r & st' & Hs & Hne)
    by (eexists _, _; split; vm_compute; [reflexivity|discriminate]).
  exists r, st'. split; [exact Hs|]. split; [by intros ->|].
  apply (webhook_redelivery_is_idempotent Scenario.cfg Reference.runtime
           (Cases.at_ 1700000001000) (store Scenario.invoiced));
    [reflexivity|reflexivity|exact Hs].
Defined.

(** X17.  Webhooks for different orders commute: two deliveries that do not
    name the same order get the same two responses and leave the same store
    in either order of arrival. *)
Theorem webhooks_for_distinct_orders_commute cfg rt e1 e2 st ev1 ev2 r1 r2 st1 st12 :
  Event.httpMethod ev1 = "POST" → resolve_path ev1 = "ipn" →
  Event.httpMethod ev2 = "POST" → resolve_path ev2 = "ipn" →
  (∀ b1 b2 oid, Event.body ev1 = Some b1 → Event.body ev2 = Some b2 →
                get b1 "order_id" = JStr oid → get b2 "order_id" ≠ JStr oid) →
  start cfg rt e1 st ev1 = Done r1 st1 →
  start cfg rt e2 st1 ev2 = Done r2 st12 →
  ∃ st2, start cfg rt e2 st ev2 = Done r2 st2 ∧ start cfg rt e1 st2 ev1 = Done r1 st12.
Proof.
  intros Hm1 Hp1 Hm2 Hp2 Hne Hs1 Hs2.
  destruct (ipn_cases cfg rt e1 st ev1 Hm1 Hp1) as (r1' & [[H1 Hall1]|(b1 & Hb1 & Hall1)]);
    destruct (ipn_cases cfg rt e2 st1 ev2 Hm2 Hp2) as (r2' & [[H2 Hall2]|(b2 & Hb2 & Hall2)]);
    rewrite ?Hall1, ?Hall2 in *; simplify_eq; eexists; split; try reflexivity.
  - by rewrite Hall1.
  - by rewrite Hall1.
  - by rewrite Hall1.
  - rewrite Hall1. f_equal. apply ipn_update_comm. intros oid Hid. by apply (Hne b1 b2).
Qed.

Lemma webhooks_for_distinct_orders_commute_witness :
  let ev1 := Cases.webhook_for "NASSR-1700000000000-1" "finished" in
  let ev2 := Cases.webhook_for "NASSR-1700000000600-2" "expired" in
  ∃ r1 r2 st2 st12,
    start Scenario.cfg Reference.runtime (Cases.at_ 1700000002000) Cases.two_orders ev2
      = Done r2 st2 ∧
    start Scenario.cfg Reference.runtime (Cases.at_ 1700000001000) st2 ev1
      = Done r1 st12 ∧
    (Order.status <$> orders st12 !! "NASSR-1700000000000-1") = Some (JStr "finished") ∧
    (Order.status <$> orders st12 !! "NASSR-1700000000600-2") = Some (JStr "expired").
Proof.
  intros ev1 ev2.
  assert (∃ r1 r2 st1 st12,
    start Scenario.cfg Reference.runtime (Cases.at_ 1700000001000) Cases.two_orders ev1
      = Done r1 st1 ∧
    start Scenario.cfg Reference.runtime (Cases.at_ 1700000002000) st1 ev2
      = Done r2 st12 ∧
    (Order.status <$> orders st12 !! "NASSR-1700000000000-1") = Some (JStr "finished") ∧
    (Order.status <$> orders st12 !! "NASSR-1700000000600-2") = Some (JStr "expired"))
    as (r1 & r2 & st1 & st12 & Hs1 & Hs2 & Hfin & Hexp)
    by (eexists _, _, _, _; repeat split; vm_compute; reflexivity).
  destruct (webhooks_for_distinct_orders_commute Scenario.cfg Reference.runtime
    (Cases.at_ 1700000001000) (Cases.at_ 1700000002000) Cases.two_orders
    ev1 ev2 r1 r2 st1 st12) as (st2 & H2 & H1);
    [reflexivity|reflexivity|reflexivity|reflexivity| |exact Hs1|exact Hs2|].
  - intros b1 b2 oid [= <-] [= <-]. vm_compute. congruence.
  - by exists r1, r2, st2, st12.
Defined.

(** ** What the signature covers *)

Lemma foldl_set_ext (g1 g2 : string → jsval) ks o :
  (∀ k, k ∈ ks → k ≠ "__proto__" → g1 k = g2 k) →
  foldl (λ obj key, Obj.set obj key (g1 key)) o ks =
  foldl (λ obj key, Obj.set obj key (g2 key)) o ks.
Proof.
  revert o. induction ks as [|k ks IH]; intros o Hg; [done|]. simpl.
  assert (Obj.set o k (g1 k) = Obj.set o k (g2 k)) as ->.
  { unfold Obj.set. case_bool_decide as Hk; [done|].
    by rewrite (Hg k) by (done || left). }
  apply IH. intros k' Hk'. apply Hg. by right.
Qed.

Lemma sortedPayload_ext rt props1 props2 :
  props1.*1 = props2.*1 →
  (∀ k, k ≠ "__proto__" → assoc k props1 = assoc k props2) →
  sortedPayload rt props1 = sortedPayload rt props2.
Proof.
  intros Hkeys Hval. unfold sortedPayload. rewrite Hkeys.
  apply foldl_set_ext. intros k _ Hk. by rewrite (Hval k Hk).
Qed.

Lemma leb_char_trans a b c :
  (a ?= b)%char ≠ Gt → (b ?= c)%char ≠ Gt → (a ?= c)%char ≠ Gt.
Proof.
  unfold Ascii.compare. rewrite !N.compare_gt_iff. lia.
Qed.

Lemma string_compare_refl s : (s ?= s)%string = Eq.
Proof.
  induction s as [|c s IH]; [done|]. simpl.
  unfold Ascii.compare. by rewrite N.compare_refl.
Qed.

Lemma string_leb_trans a b c :
  String.leb a b = true → String.leb b c = true → String.leb a c = true.
Proof.
  unfold String.leb.
  assert (∀ a b c, (a ?= b)%string ≠ Gt → (b ?= c)%string ≠ Gt → (a ?= c)%string ≠ Gt)
    as Htrans.
  { clear. induction a as [|x a IH]; intros [|y b] [|z c]; simpl; try done.
    unfold Ascii.compare.
    destruct (N.compare_spec (N_of_ascii x) (N_of_ascii y)) as [Hxy|Hxy|Hxy];
      destruct (N.compare_spec (N_of_ascii y) (N_of_ascii z)) as [Hyz|Hyz|Hyz];
      try done; intros Hab Hbc.
    - rewrite Hxy, Hyz, N.compare_refl. by apply (IH b c).
    - assert (N_of_ascii x < N_of_ascii z)%N as ->%N.compare_lt_iff by lia. done.
    - assert (N_of_ascii x < N_of_ascii z)%N as ->%N.compare_lt_iff by lia. done.
    - assert (N_of_ascii x < N_of_ascii z)%N as ->%N.compare_lt_iff by lia. done. }
  intros Hab Hbc. specialize (Htrans a b c).
  destruct (a ?= b)%string, (b ?= c)%string, (a ?= c)%string; try done;
    exfalso; by apply Htrans.
Qed.

Lemma string_leb_false a b : String.leb a b = false → String.leb b a = true.
Proof. destruct (String.leb_total a b) as [->|]; [done|auto]. Qed.

Lemma insert_sorted_comm a b l :
  insert_sorted a (insert_sorted b l) = insert_sorted b (insert_sorted a l).
Proof.
  induction l as [|x l IH]; simpl.
  - destruct (String.leb a b) eqn:Hab, (String.leb b a) eqn:Hba; try done.
    + by rewrite (String.leb_antisym a b).
    + apply string_leb_false in Hab. congruence.
  - destruct (String.leb b x) eqn:Hbx, (String.leb a x) eqn:Hax; simpl;
      rewrite ?Hbx, ?Hax.
    + destruct (String.leb a b) eqn:Hab, (String.leb b a) eqn:Hba; try done.
      * by rewrite (String.leb_antisym a b).
      * apply string_leb_false in Hab. congruence.
    + destruct (String.leb a b) eqn:Hab; [|done].
      by rewrite (string_leb_trans a b x) in Hax.
    + destruct (String.leb b a) eqn:Hba; [|done].
      by rewrite (string_leb_trans b a x) in Hbx.
    + by rewrite IH.
Qed.

Lemma insertion_sort_perm l1 l2 :
  l1 ≡ₚ l2 → foldr insert_sorted [] l1 = foldr insert_sorted [] l2.
Proof.
  induction 1 as [|x l1 l2 _ IH|x y l|l1 l2 l3 _ IH1 _ IH2]; simpl.
  - done.
  - by rewrite IH.
  - apply insert_sorted_comm.
  - congruence.
Qed.

Lemma sort_perm rt l1 l2 :
  forallb Str.is_ascii l1 = true → l1 ≡ₚ l2 → sort rt l1 = sort rt l2.
Proof.
  intros Ha Hp. unfold sort.
  assert (forallb Str.is_ascii l2 = true) as ->.
  { apply forallb_forall. intros k Hk. apply (proj1 (forallb_forall _ _) Ha).
    apply list_elem_of_In. rewrite Hp. by apply list_elem_of_In. }
  rewrite Ha. by apply insertion_sort_perm.
Qed.

Lemma assoc_elem_of {A} k (v : A) l : NoDup l.*1 → (k, v) ∈ l → assoc k l = Some v.
Proof.
  induction l as [|[k' v'] l IH]; simpl; [by intros _ ?%elem_of_nil|].
  intros [Hk Hnd]%NoDup_cons [[= <- <-]|Hin]%elem_of_cons.
  - by rewrite bool_decide_true.
  - rewrite bool_decide_false; [by apply IH|].
    intros ->. apply Hk. apply list_elem_of_fmap. by exists (k, v).
Qed.

Lemma assoc_perm {A} k (l1 l2 : list (string * A)) :
  NoDup l1.*1 → l1 ≡ₚ l2 → assoc k l1 = assoc k l2.
Proof.
  intros Hnd Hp.
  assert (NoDup l2.*1) as Hnd2 by (by rewrite <- Hp).
  destruct (assoc k l1) as [v|] eqn:H1.
  - symmetry. apply assoc_elem_of; [done|]. rewrite <- Hp.
    clear -H1. induction l1 as [|[k' v'] l IH]; [done|]. simpl in H1.
    case_bool_decide; simplify_eq; [left|right; auto].
  - destruct (assoc k l2) as [v|] eqn:H2; [|done].
    assert ((k, v) ∈ l1) as Hin.
    { rewrite Hp. clear -H2. induction l2 as [|[k' v'] l IH]; [done|]. simpl in H2.
      case_bool_decide; simplify_eq; [left|right; auto]. }
    by rewrite (assoc_elem_of k v l1 Hnd Hin) in H1.
Qed.

Lemma sortedPayload_perm rt props1 props2 :
  NoDup props1.*1 → forallb Str.is_ascii props1.*1 = true → props1 ≡ₚ props2 →
  sortedPayload rt props1 = sortedPayload rt props2.
Proof.
  intros Hnd Ha Hp. unfold sortedPayload.
  rewrite (sort_perm rt props1.*1 props2.*1) by (done || by rewrite Hp).
  apply foldl_set_ext. intros k _ _. by rewrite (assoc_perm k props1 props2).
Qed.

Section Signed.
Context (cfg : config) (rt : Runtime).

(** The webhook reads four properties of the payload and signs
    [sortedPayload]; bodies that agree on those are handled alike. *)
Lemma ipn_body_ext e st ev props1 props2 :
  Event.httpMethod ev = "POST" → resolve_path ev = "ipn" →
  sortedPayload rt props1 = sortedPayload rt props2 →
  (∀ k, k ≠ "__proto__" → assoc k props1 = assoc k props2) →
  start cfg rt e st (with_body (JObj props1) ev) =
  start cfg rt e st (with_body (JObj props2) ev).
Proof.
  intros Hm Hp Hsorted Hval.
  rewrite !start_ipn by done.
  unfold ipn, parse_body, destructure, ipn_verify, ipn_signature, to_strings. simpl.
  rewrite Hsorted, !(Hval "order_id"), !(Hval "payment_status"), !(Hval "actually_paid"),
    !(Hval "pay_amount") by done.
  done.
Qed.

End Signed.

(** X18.  The signature does not cover a [__proto__] property.  Two
    payloads with the same keys that agree on every property except
    [__proto__] have the same signed text under every secret, and the
    webhook handles them alike: same response, same store. *)
Theorem signature_does_not_cover_proto cfg rt e st ev props1 props2 :
  Event.httpMethod ev = "POST" → resolve_path ev = "ipn" →
  props1.*1 = props2.*1 →
  (∀ k, k ≠ "__proto__" → assoc k props1 = assoc k props2) →
  (∀ secret, ipn_signature rt secret props1 = ipn_signature rt secret props2) ∧
  start cfg rt e st (with_body (JObj props1) ev) =
  start cfg rt e st (with_body (JObj props2) ev).
Proof.
  intros Hm Hp Hkeys Hval.
  pose proof (sortedPayload_ext rt props1 props2 Hkeys Hval) as Hsorted.
  split.
  - intros secret. unfold ipn_signature. by rewrite Hsorted.
  - by apply ipn_body_ext.
Qed.

Lemma signature_does_not_cover_proto_witness :
  let props1 := [("__proto__", JStr "a"); ("order_id", JStr Scenario.orderId);
                 ("payment_status", JStr "finished")] in
  let props2 := [("__proto__", JObj [("order_id", JStr "NASSR-1-2")]);
                 ("order_id", JStr Scenario.orderId);
                 ("payment_status", JStr "finished")] in
  let ev := Scenario.signed_webhook props1 (ipn_signature Reference.runtime Scenario.secret props1) in
  Response.statusCode <$>
    (match start (Reference.cfg (Some Scenario.secret)) Reference.runtime
             (Cases.at_ 1700000001000) (store Scenario.invoiced) ev with
     | Done r _ => Some r | Await _ _ => None end) = Some 200%Z ∧
  start (Reference.cfg (Some Scenario.secret)) Reference.runtime
    (Cases.at_ 1700000001000) (store Scenario.invoiced) (with_body (JObj props1) ev) =
  start (Reference.cfg (Some Scenario.secret)) Reference.runtime
    (Cases.at_ 1700000001000) (store Scenario.invoiced) (with_body (JObj props2) ev).
Proof.
  intros props1 props2 ev. split; [vm_compute; reflexivity|].
  apply (signature_does_not_cover_proto (Reference.cfg (Some Scenario.secret))
           Reference.runtime (Cases.at_ 1700000001000) (store Scenario.invoiced)
           ev props1 props2); [reflexivity|reflexivity|reflexivity|].
  intros k Hk. subst props1 props2. simpl.
  rewrite !(bool_decide_false ("__proto__" = k)) by congruence. reflexivity.
Defined.

(** X19.  The signature does not depend on the order in which the payload
    lists its properties.  For payloads with distinct ASCII keys, listing the
    same properties in another order gives the same signed text under every
    secret, and the webhook handles both alike. *)
Theorem signature_ignores_property_order cfg rt e st ev props1 props2 :
  Event.httpMethod ev = "POST" → resolve_path ev = "ipn" →
  NoDup props1.*1 → forallb Str.is_ascii props1.*1 = true →
  props1 ≡ₚ props2 →
  (∀ secret, ipn_signature rt secret props1 = ipn_signature rt secret props2) ∧
  start cfg rt e st (with_body (JObj props1) ev) =
  start cfg rt e st (with_body (JObj props2) ev).
Proof.
  intros Hm Hp Hnd Ha Hperm.
  pose proof (sortedPayload_perm rt props1 props2 Hnd Ha Hperm) as Hsorted.
  split.
  - intros secret. unfold ipn_signature. by rewrite Hsorted.
  - apply ipn_body_ext; [done..|]. intros k _. by apply assoc_perm.
Qed.

Lemma signature_ignores_property_order_witness :
  let props1 := [("payment_status", JStr "finished"); ("order_id", JStr Scenario.orderId)] in
  let props2 := [("order_id", JStr Scenario.orderId); ("payment_status", JStr "finished")] in
  let ev := Scenario.signed_webhook props1 (ipn_signature Reference.runtime Scenario.secret props1) in
  Response.statusCode <$>
    (match start (Reference.cfg (Some Scenario.secret)) Reference.runtime
             (Cases.at_ 1700000001000) (store Scenario.invoiced) ev with
     | Done r _ => Some r | Await _ _ => None end) = Some 200%Z ∧
  start (Reference.cfg (Some Scenario.secret)) Reference.runtime
    (Cases.at_ 1700000001000) (store Scenario.invoiced) (with_body (JObj props1) ev) =
  start (Reference.cfg (Some Scenario.secret)) Reference.runtime
    (Cases.at_ 1700000001000) (store Scenario.invoiced) (with_body (JObj props2) ev).
Proof.
  intros props1 props2 ev. split; [vm_compute; reflexivity|].
  apply (signature_ignores_property_order (Reference.cfg (Some Scenario.secret))
           Reference.runtime (Cases.at_ 1700000001000) (store Scenario.invoiced)
           ev props1 props2); [reflexivity|reflexivity| |reflexivity|apply perm_swap].
  apply (bool_decide_unpack _). vm_compute. exact I.
Defined.

(** ** Order ids *)

Lemma pretty_N_char_no_dash n : pretty_N_char n ≠ "-"%char.
Proof. unfold pretty_N_char. repeat case_match; discriminate. Qed.

Lemma pretty_N_go_no_dash x s : no_dash s = true → no_dash (pretty_N_go x s) = true.
Proof.
  revert s. induction (N.lt_wf_0 x) as [x _ IH]; intros s Hs.
  destruct (decide (0 < x)%N) as [Hx|Hx].
  - rewrite pretty_N_go_step by done. apply IH.
    + by apply N.div_lt.
    + simpl. rewrite bool_decide_false by apply pretty_N_char_no_dash. done.
  - assert (x = 0%N) as -> by lia. by rewrite pretty_N_go_0.
Qed.

Lemma pretty_Z_no_dash (z : Z) : (0 ≤ z)%Z → no_dash (pretty z) = true.
Proof.
  destruct z as [|p|p]; [done| |lia]. intros _.
  change (pretty (Z.pos p)) with (pretty (N.pos p)).
  unfold pretty, pretty_N. case_match; [done|]. by apply pretty_N_go_no_dash.
Qed.

Lemma split_at_dash d1 d2 r1 r2 :
  no_dash d1 = true → no_dash d2 = true →
  d1 +:+ "-" +:+ r1 = d2 +:+ "-" +:+ r2 → d1 = d2 ∧ r1 = r2.
Proof.
  revert d2. induction d1 as [|c d1 IH]; intros [|c2 d2]; simpl;
    rewrite ?string_app_nil, ?string_app_cons.
  - intros _ _ H. split; [done|].
    rewrite ?string_app_cons, ?string_app_nil in H. congruence.
  - intros _ [Hc _]%andb_true_iff H.
    rewrite ?string_app_cons, ?string_app_nil in H. injection H as <- _.
    by rewrite bool_decide_true in Hc.
  - intros [Hc _]%andb_true_iff _ H.
    rewrite ?string_app_cons, ?string_app_nil in H. injection H as -> _.
    by rewrite bool_decide_true in Hc.
  - intros [_ H1]%andb_true_iff [_ H2]%andb_true_iff H.
    injection H as -> H. destruct (IH d2 H1 H2 H) as [-> ->]. done.
Qed.

(** X20.  Two order ids are equal exactly when they were made in the same
    millisecond for the same item: for clock readings that are not negative,
    the id determines both the reading and the item's id. *)
Theorem order_id_determines_time_and_item now1 now2 p1 p2 :
  (0 ≤ now1)%Z → (0 ≤ now2)%Z →
  make_orderId now1 p1 = make_orderId now2 p2
  ↔ now1 = now2 ∧ Player.id p1 = Player.id p2.
Proof.
  intros H1 H2. unfold make_orderId. split; [|by intros [-> ->]].
  rewrite !(string_app_cons _ _ (pretty _ +:+ _)), !string_app_nil.
  intros Heq.
  assert (pretty now1 +:+ "-" +:+ pretty (Player.id p1) =
          pretty now2 +:+ "-" +:+ pretty (Player.id p2)) as Hs.
  { revert Heq. rewrite !string_app_cons, !string_app_nil. congruence. }
  apply split_at_dash in Hs as [Hn Hp]; [|by apply pretty_Z_no_dash..].
  split; by apply (inj pretty).
Qed.

Lemma order_id_determines_time_and_item_witness :
  make_orderId 1700000000000 Cases.item1 ≠ make_orderId 170000000000 Cases.item6 ∧
  make_orderId 1700000000000 Cases.item1 ≠ make_orderId 1700000000000 Cases.item6.
Proof.
  split.
  - intros [Hnow _]%(order_id_determines_time_and_item
                      1700000000000 170000000000 Cases.item1 Cases.item6);
      [discriminate Hnow|lia|lia].
  - intros [_ Hid]%(order_id_determines_time_and_item
                     1700000000000 1700000000000 Cases.item1 Cases.item6);
      [discriminate Hid|lia|lia].
Defined.

(** ** The two deployments *)

Section Deployments.
Context (cfg : config) (rt : Runtime).

Lemma server_verify ev payload :
  Server.verify cfg rt (Event.headers ev) payload = ipn_verify cfg rt ev payload.
Proof. reflexivity. Qed.

End Deployments.

(** X21.  The Express route and the Netlify route for POST redeem agree.
    On the same parsed body, the same stores and the same clock and random
    bytes, both leave the same stores and answer with the same status and,
    except for the 500 of their catch blocks, the same JSON text. *)
Theorem deployments_agree_on_redeem cfg rt e st ev body :
  Event.httpMethod ev = "POST" → resolve_path ev = "redeem" →
  Event.body ev = Some body →
  ∃ r, start cfg rt e st ev = Done r (Server.redeem rt e st body).2 ∧
       same_answer r (Server.redeem rt e st body).1.
Proof.
  intros Hm Hp Hb. rewrite start_redeem by done.
  unfold redeem, Server.redeem, parse_body, destructure, same_answer. rewrite Hb. simpl.
  destruct (nullish body); simpl; [agree|].
  destruct (negb (truthy (get body "code")) || negb (truthy (get body "lightningAddress")));
    simpl; [agree|].
  destruct (get body "code") as [| | | |code| |]; simpl; try agree.
  unfold normalize.
  destruct (redeemCodes st !! trim rt (toUpperCase rt code)) as [c|]; simpl; [|agree].
  destruct (Code.redeemed c); simpl; [agree|].
  unfold make_txId, to_strings. simpl. rewrite !orb_false_r.
  destruct (ToString_throws (get body "lightningAddress")); simpl; agree.
Qed.

Lemma deployments_agree_on_redeem_witness :
  let ev := Scenario.redeem_request " nassr-r7cr-gold-2025 " in
  let x := Server.redeem Reference.runtime (Cases.at_ 1700000001000) initial_state
             (JObj [("code", JStr " nassr-r7cr-gold-2025 ");
                    ("lightningAddress", JStr "x@getalby.com")]) in
  Express.status x.1 = 200%Z ∧
  ∃ r, start Scenario.cfg Reference.runtime (Cases.at_ 1700000001000) initial_state ev
         = Done r x.2 ∧ same_answer r x.1.
Proof.
  intros ev x. split; [vm_compute; reflexivity|].
  apply (deployments_agree_on_redeem Scenario.cfg Reference.runtime
           (Cases.at_ 1700000001000) initial_state ev); reflexivity.
Defined.

(** X22.  The Express route and the Netlify route for the webhook agree.
    On the same headers, the same parsed payload and the same stores, both
    check the same signature, apply the same update to orders and catalogue,
    and answer with the same status and, except for the 500 of their catch
    blocks, the same JSON text. *)
Theorem deployments_agree_on_webhooks cfg rt e st ev payload :
  Event.httpMethod ev = "POST" → resolve_path ev = "ipn" →
  Event.body ev = Some payload →
  ∃ r, start cfg rt e st ev = Done r (Server.ipn cfg rt st (Event.headers ev) payload).2 ∧
       same_answer r (Server.ipn cfg rt st (Event.headers ev) payload).1.
Proof.
  intros Hm Hp Hb. rewrite start_ipn by done.
  unfold ipn, Server.ipn, parse_body, destructure, same_answer.
  rewrite Hb, server_verify. simpl.
  destruct (ipn_verify cfg rt ev payload) as [[]|msg]; simpl; try agree.
  destruct (nullish payload); simpl; [agree|].
  destruct (to_strings rt _) as [[]|]; simpl; agree.
Qed.

Lemma deployments_agree_on_webhooks_witness :
  let ev := Scenario.webhook "finished" in
  let x := Server.ipn Scenario.cfg Reference.runtime (store Scenario.invoiced) ∅
             (JObj [("actually_paid", num 1); ("order_id", JStr Scenario.orderId);
                    ("payment_status", JStr "finished")]) in
  Express.status x.1 = 200%Z ∧
  Player.sold <$> players x.2 = [true; false; true; false; true; false] ∧
  ∃ r, start Scenario.cfg Reference.runtime (Cases.at_ 1700000001000)
         (store Scenario.invoiced) ev = Done r x.2 ∧ same_answer r x.1.
Proof.
  intros ev x. split; [vm_compute; reflexivity|]. split; [vm_compute; reflexivity|].
  apply (deployments_agree_on_webhooks Scenario.cfg Reference.runtime
           (Cases.at_ 1700000001000) (store Scenario.invoiced) ev); reflexivity.
Defined.

(** X23.  The Express routes and the Netlify routes that read the stores
    agree: GET order, on the id that follows [order/], and GET cards answer
    with the same status and the same JSON text on both deployments, and
    change nothing. *)
Theorem deployments_agree_on_reads cfg rt e st ev :
  Event.httpMethod ev = "GET" →
  (∀ oid, resolve_path ev = "order/" +:+ oid →
     ∃ r, start cfg rt e st ev = Done r st ∧ same_answer r (Server.order rt st oid)) ∧
  (resolve_path ev = "cards" →
     ∃ r, start cfg rt e st ev = Done r st ∧ same_answer r (Server.cards rt st)).
Proof.
  intros Hm. split.
  - intros oid Hp. rewrite (start_get_order cfg rt e st ev oid Hm Hp).
    unfold Server.order, same_answer. destruct (orders st !! oid); eauto.
  - intros Hp. unfold start, route, is_route. rewrite Hm, Hp. simpl.
    unfold same_answer. eauto.
Qed.

Lemma deployments_agree_on_reads_witness :
  let ev := Cases.get ("/api/order/" +:+ Scenario.orderId) in
  Express.status (Server.order Reference.runtime (store Scenario.invoiced) Scenario.orderId)
    = 200%Z ∧
  ∃ r, start Scenario.cfg Reference.runtime (Cases.at_ 1700000001000)
         (store Scenario.invoiced) ev = Done r (store Scenario.invoiced) ∧
       same_answer r (Server.order Reference.runtime (store Scenario.invoiced)
                        Scenario.orderId).
Proof.
  intros ev. split; [vm_compute; reflexivity|].
  apply (deployments_agree_on_reads Scenario.cfg Reference.runtime
           (Cases.at_ 1700000001000) (store Scenario.invoiced) ev);
    vm_compute; reflexivity.
Defined.

(** ** The resolved path *)

Lemma strip_slashes_plain p : Str.startsWith p "/" = false → Str.strip_slashes p = p.
Proof.
  destruct p as [|c p]; [done|]. simpl. rewrite andb_true_r.
  intros Hc%bool_decide_eq_false.
  destruct c as [[] [] [] [] [] [] [] []]; done.
Qed.

(** X24.  The route is the same under every prefix.  For a path [p] that
    starts neither with a slash nor with [api/], the requests for
    [/.netlify/functions/api/p], for [/api/p] and for [/p] all resolve to
    [p], the last two provided the function's own prefix does not occur in
    [/p]; and the raw URL is used only when the event has no path. *)
Theorem path_prefixes_are_stripped ev raw p :
  Str.startsWith p "/" = false → Str.startsWith p "api/" = false →
  first_truthy (Event.path ev) (Event.rawUrl ev) = raw →
  raw = "/.netlify/functions/api/" +:+ p ∨
  (Str.replace "/.netlify/functions/api" "" ("/" +:+ p) = "/" +:+ p ∧
   (raw = "/api/" +:+ p ∨ raw = "/" +:+ p)) →
  resolve_path ev = p ∧
  (∀ s, Event.path ev = Some s → s ≠ "" → raw = s).
Proof.
  intros Hslash Hapi Hraw Hcases. split.
  - assert (Str.startsWith ("/" +:+ p) "/api/" = false) as Hno.
    { rewrite string_app_cons, string_app_nil.
      change (Str.startsWith (String "/" p) "/api/")
        with (bool_decide ("/"%char = "/"%char) && Str.startsWith p "api/").
      by rewrite Hapi, andb_false_r. }
    unfold resolve_path. rewrite Hraw.
    destruct Hcases as [->|[Hrep [->| ->]]].
    + change ("/.netlify/functions/api/" +:+ p)
        with ("/.netlify/functions/api" +:+ ("/" +:+ p)).
      rewrite replace_prefix. unfold Str.replace_api_prefix. rewrite Hno.
      rewrite string_app_cons, string_app_nil. simpl. by apply strip_slashes_plain.
    + assert (Str.replace "/.netlify/functions/api" "" ("/api/" +:+ p)
              = "/api" +:+ Str.replace "/.netlify/functions/api" "" ("/" +:+ p)) as ->
        by reflexivity.
      rewrite Hrep. unfold Str.replace_api_prefix.
      change ("/api" +:+ ("/" +:+ p)) with ("/api/" +:+ p).
      rewrite startsWith_app. change 5%nat with (String.length "/api/").
      rewrite drop_app, string_app_cons, string_app_nil. simpl.
      by apply strip_slashes_plain.
    + rewrite Hrep. unfold Str.replace_api_prefix. rewrite Hno.
      rewrite string_app_cons, string_app_nil. simpl. by apply strip_slashes_plain.
  - intros s Hs Hne. rewrite <- Hraw, Hs. unfold first_truthy, configured.
    by rewrite bool_decide_false.
Qed.

Lemma path_prefixes_are_stripped_witness :
  resolve_path (Cases.get "/.netlify/functions/api/order/NASSR-1-2") = "order/NASSR-1-2" ∧
  resolve_path (Cases.get "/api/order/NASSR-1-2") = "order/NASSR-1-2" ∧
  resolve_path (Cases.get "/order/NASSR-1-2") = "order/NASSR-1-2".
Proof.
  split; [|split].
  - apply (path_prefixes_are_stripped _ "/.netlify/functions/api/order/NASSR-1-2");
      [reflexivity|reflexivity|reflexivity|left; reflexivity].
  - apply (path_prefixes_are_stripped _ "/api/order/NASSR-1-2");
      [reflexivity|reflexivity|reflexivity|right; split; [reflexivity|left; reflexivity]].
  - apply (path_prefixes_are_stripped _ "/order/NASSR-1-2");
      [reflexivity|reflexivity|reflexivity|right; split; [reflexivity|right; reflexivity]].
Defined.
